(** * SumPrime: sum of the primes below one million, in C and in C++

    A shallow embedding of [SumPrime.c] and [SumPrime.cpp].  Both programs
    consist of a trial-division primality test [is_prime], whose loop bound
    is the double-precision square root of the candidate, and of a driver
    [main] that adds up the accepted candidates of [2, 1000000) in a
    [long long] accumulator and prints the sum and the elapsed time.

    - [int] and [long long] are integers of [Z] with their wrap-around
      written out; [double] is IEEE 754 binary64, as [SpecFloat] defines
      its operations on sign, mantissa and exponent.
    - The two loops take fuel and return [None] when it runs out, so that
      every result below is a result the loop does return.
    - [main] is a function of the two readings of the clock and returns
      what it writes to the standard output. *)

From Stdlib Require Import ZArith List Bool Lia Znumtheory Uint63.
From Stdlib Require Import String Ascii DecimalString DecimalPos DecimalZ.
From Stdlib Require Import Floats.SpecFloat.

Local Open Scope Z_scope.

(** ** Machine types *)

Module Machine.

(** [int]: 32-bit two's complement. *)
Definition INT_MIN : Z := - 2 ^ 31.
Definition INT_MAX : Z := 2 ^ 31 - 1.

Definition is_int (z : Z) : Prop := INT_MIN <= z <= INT_MAX.

Definition wrap_int (z : Z) : Z := (z + 2 ^ 31) mod 2 ^ 32 - 2 ^ 31.

(** [long long]: 64-bit two's complement. *)
Definition LLONG_MIN : Z := - 2 ^ 63.
Definition LLONG_MAX : Z := 2 ^ 63 - 1.

Definition is_llong (z : Z) : Prop := LLONG_MIN <= z <= LLONG_MAX.

Definition wrap_llong (z : Z) : Z := (z + 2 ^ 63) mod 2 ^ 64 - 2 ^ 63.

(** [i++] on an [int]. *)
Definition int_incr (i : Z) : Z := wrap_int (i + 1).

(** [n % i] on [int]s: the remainder of the division truncated toward
    zero. *)
Definition int_rem (n i : Z) : Z := Z.rem n i.

(** [sum += i] with [sum] a [long long] and [i] an [int]. *)
Definition llong_add (sum i : Z) : Z := wrap_llong (sum + i).

(** [double]: IEEE 754 binary64. *)
Definition prec : Z := 53.
Definition emax : Z := 1024.

Definition double : Type := spec_float.

(** The conversion of an integer to [double], rounding to nearest even. *)
Definition double_of_Z (z : Z) : double := binary_normalize prec emax z 0 false.

(** [sqrt] of <math.h> and <cmath>: the correctly rounded square root. *)
Definition sqrt (x : double) : double := SFsqrt prec emax x.

(** [x <= y] on [double]s. *)
Definition double_le (x y : double) : bool := SFleb x y.

(** [x / y] on [double]s. *)
Definition double_div (x y : double) : double := SFdiv prec emax x y.

(** [CLOCKS_PER_SEC] of <time.h>, of type [clock_t], a 64-bit [long]:
    one million on every POSIX system. *)
Definition CLOCKS_PER_SEC : Z := 1000000.

(** The ticks per second of [std::chrono::high_resolution_clock], whose
    durations count nanoseconds in a 64-bit integer. *)
Definition chrono_ticks_per_second : Z := 1000000000.

End Machine.

Import Machine.

(** ** Formatted output *)

Module Stdio.

Local Open Scope string_scope.
Local Open Scope Z_scope.

Definition newline : string := String (ascii_of_nat 10) "".

(** An integer in decimal, as [%lld] and [operator<<(long long)] print
    it. *)
Definition string_of_Z (z : Z) : string :=
  NilZero.string_of_int (Z.to_int z).

Definition digit (d : Z) : ascii := ascii_of_nat (48 + Z.to_nat d).

(** The [k] low decimal digits of [f], with leading zeros. *)
Fixpoint pad_digits (k : nat) (f : Z) : string :=
  match k with
  | O => ""
  | S k' =>
      String (digit (f / 10 ^ Z.of_nat k' mod 10)) (pad_digits k' f)
  end.

Fixpoint strip_zeros (s : string) : string :=
  match s with
  | "" => ""
  | String c s' =>
      match strip_zeros s' with
      | "" => if Ascii.eqb c "0" then "" else String c ""
      | t => String c t
      end
  end.

Definition sign_string (x : double) : string :=
  match x with
  | S754_zero true | S754_infinity true | S754_finite true _ _ => "-"
  | _ => ""
  end.

(** The magnitude of a finite double, as an exact fraction. *)
Definition magnitude (x : double) : Z * Z :=
  match x with
  | S754_finite _ m e =>
      if 0 <=? e then (Zpos m * 2 ^ e, 1) else (Zpos m, 2 ^ (- e))
  | _ => (0, 1)
  end.

(** The fraction [num / den] multiplied by [10 ^ k]. *)
Definition scale (k : Z) (q : Z * Z) : Z * Z :=
  let (num, den) := q in
  if 0 <=? k then (num * 10 ^ k, den) else (num, den * 10 ^ (- k)).

(** A fraction rounded to the nearest integer, ties to even. *)
Definition round_half_even (q : Z * Z) : Z :=
  let (num, den) := q in
  let n := num / den in
  match 2 * (num mod den) ?= den with
  | Lt => n
  | Gt => n + 1
  | Eq => if Z.even n then n else n + 1
  end.

(** [%.pf]: [p] digits after the decimal point. *)
Definition format_f (p : nat) (x : double) : string :=
  match x with
  | S754_nan => "nan"
  | S754_infinity _ => sign_string x ++ "inf"
  | _ =>
      let n := round_half_even (scale (Z.of_nat p) (magnitude x)) in
      sign_string x ++ string_of_Z (n / 10 ^ Z.of_nat p) ++
      match p with
      | O => ""
      | _ => "." ++ pad_digits p n
      end
  end.

(** The largest [x'] at most [x] with [10 ^ x' <= q], searched downward. *)
Fixpoint exponent10 (fuel : nat) (x : Z) (q : Z * Z) : Z :=
  match fuel with
  | O => x
  | S fuel' =>
      let (a, b) := scale (- x) q in
      if b <=? a then x else exponent10 fuel' (x - 1) q
  end.

(** The [p] significant digits of a positive fraction and its decimal
    exponent, as the [e] style has them. *)
Definition significand (p : nat) (q : Z * Z) : Z * Z :=
  let x := exponent10 640 309 q in
  let n := round_half_even (scale (Z.of_nat p - 1 - x) q) in
  if n <? 10 ^ Z.of_nat p then (n, x) else (n / 10, x + 1).

Definition fraction_string (digits : string) : string :=
  match strip_zeros digits with
  | "" => ""
  | t => "." ++ t
  end.

(** [%g] with precision [p] and no flag: the style of
    [operator<<(double)] on a stream whose [floatfield] is unset, [p]
    being the precision of the stream. *)
Definition format_g (p : nat) (x : double) : string :=
  match x with
  | S754_nan => "nan"
  | S754_infinity _ => sign_string x ++ "inf"
  | S754_zero _ => sign_string x ++ "0"
  | S754_finite _ _ _ =>
      let (n, e) := significand p (magnitude x) in
      if (e <? -4) || (Z.of_nat p <=? e) then
        sign_string x ++
        match pad_digits p n with
        | String d ds => String d (fraction_string ds)
        | "" => ""
        end ++ "e" ++ (if e <? 0 then "-" else "+") ++
        (if Z.abs e <? 10 then "0" else "") ++ string_of_Z (Z.abs e)
      else
        let k := Z.to_nat (Z.of_nat p - 1 - e) in
        sign_string x ++ string_of_Z (n / 10 ^ Z.of_nat k) ++
        fraction_string (pad_digits k n)
  end.

(** The precision of [std::cout] as the program finds it. *)
Definition default_precision : nat := 6.

(** *** The shape of the second output line *)

Definition is_digit (c : ascii) : bool :=
  (48 <=? nat_of_ascii c)%nat && (nat_of_ascii c <=? 57)%nat.

(** One digit or more, a point, and exactly two digits. *)
Fixpoint fixed_two (seen : bool) (s : string) : bool :=
  match s with
  | "" => false
  | String c s' =>
      if is_digit c then fixed_two true s'
      else if Ascii.eqb c "." then
        seen && match s' with
                | String a (String b "") => is_digit a && is_digit b
                | _ => false
                end
      else false
  end.

Definition two_decimal_places (s : string) : bool :=
  match s with
  | String "-" s' => fixed_two false s'
  | _ => fixed_two false s
  end.

(** What a line has between [Time: ] and [ seconds]. *)
Definition time_value (line : string) : string :=
  substring 6 (length line - 15) line.

(** [Time: <value with two decimal places> seconds] *)
Definition is_time_line (line : string) : bool :=
  String.eqb line ("Time: " ++ time_value line ++ " seconds" ++ newline)
  && two_decimal_places (time_value line).

End Stdio.

Import Stdio.

(** The local variables of the summation loop of [main]: the [int]
    candidate [i] and the [long long] accumulator [sum]. *)
Record loop_state : Set := { st_i : Z; st_sum : Z }.

(** [long long sum = 0; for (int i = 2; ...)] *)
Definition loop_init : loop_state := {| st_i := 2; st_sum := 0 |}.

(** ** SumPrime.c *)

Module C.

(** The loop of [is_prime]:
    [for (int i = 2; i <= sqrt(n); i++) if (n % i == 0) return 0;]
    followed by [return 1]. Both sides of the loop test are converted to
    [double]. *)
Fixpoint is_prime_loop (fuel : nat) (n i : Z) : option Z :=
  match fuel with
  | O => None
  | S fuel' =>
      if double_le (double_of_Z i) (sqrt (double_of_Z n)) then
        if int_rem n i =? 0 then Some 0
        else is_prime_loop fuel' n (int_incr i)
      else Some 1
  end.

Definition is_prime (fuel : nat) (n : Z) : option Z :=
  if n <=? 1 then Some 0 else is_prime_loop fuel n 2.

(** One iteration of the loop of [main], entered when [i < 1000000]:
    the body [if (is_prime(i)) sum += i;] and then [i++]. *)
Definition main_step (fuel : nat) (s : loop_state) : option loop_state :=
  match is_prime fuel (st_i s) with
  | None => None
  | Some r =>
      Some {| st_i := int_incr (st_i s);
              st_sum := if r =? 0 then st_sum s
                        else llong_add (st_sum s) (st_i s) |}
  end.

(** [for (...; i < 1000000; i++) if (is_prime(i)) sum += i;] run from the
    state [s] to the exit of the loop. *)
Fixpoint main_loop (fuel : nat) (s : loop_state) : option loop_state :=
  match fuel with
  | O => None
  | S fuel' =>
      if st_i s <? 1000000 then
        match main_step fuel' s with
        | None => None
        | Some s' => main_loop fuel' s'
        end
      else Some s
  end.

(** The same loop stopped after [k] iterations: the intermediate states
    of [main_loop]. [None] when the loop exits earlier. *)
Fixpoint main_iter (fuel : nat) (k : nat) (s : loop_state) : option loop_state :=
  match k with
  | O => Some s
  | S k' =>
      if st_i s <? 1000000 then
        match main_step fuel s with
        | None => None
        | Some s' => main_iter fuel k' s'
        end
      else None
  end.

(** The value of [sum] that [main] prints. *)
Definition main_sum (fuel : nat) : option Z :=
  option_map st_sum (main_loop fuel loop_init).

(** [printf("Sum: %lld\n", sum)] *)
Definition sum_line (sum : Z) : string :=
  ("Sum: " ++ string_of_Z sum ++ newline)%string.

(** [(double)(end - start)/CLOCKS_PER_SEC], on two values of [clock()]. *)
Definition elapsed (clock_start clock_end : Z) : double :=
  double_div (double_of_Z (wrap_llong (clock_end - clock_start)))
             (double_of_Z CLOCKS_PER_SEC).

(** [printf("Time: %.2f seconds\n", ...)] *)
Definition time_line (clock_start clock_end : Z) : string :=
  ("Time: " ++ format_f 2 (elapsed clock_start clock_end) ++ " seconds"
     ++ newline)%string.

(** The standard output of [main], given what the two calls of
    [clock()] return. *)
Definition main (fuel : nat) (clock_start clock_end : Z) : option string :=
  match main_sum fuel with
  | None => None
  | Some sum =>
      Some (sum_line sum ++ time_line clock_start clock_end)%string
  end.

End C.

(** ** SumPrime.cpp *)

Module Cpp.

Fixpoint is_prime_loop (fuel : nat) (n i : Z) : option bool :=
  match fuel with
  | O => None
  | S fuel' =>
      if double_le (double_of_Z i) (sqrt (double_of_Z n)) then
        if int_rem n i =? 0 then Some false
        else is_prime_loop fuel' n (int_incr i)
      else Some true
  end.

Definition is_prime (fuel : nat) (n : Z) : option bool :=
  if n <=? 1 then Some false else is_prime_loop fuel n 2.

Definition main_step (fuel : nat) (s : loop_state) : option loop_state :=
  match is_prime fuel (st_i s) with
  | None => None
  | Some b =>
      Some {| st_i := int_incr (st_i s);
              st_sum := if b then llong_add (st_sum s) (st_i s)
                        else st_sum s |}
  end.

Fixpoint main_loop (fuel : nat) (s : loop_state) : option loop_state :=
  match fuel with
  | O => None
  | S fuel' =>
      if st_i s <? 1000000 then
        match main_step fuel' s with
        | None => None
        | Some s' => main_loop fuel' s'
        end
      else Some s
  end.

Fixpoint main_iter (fuel : nat) (k : nat) (s : loop_state) : option loop_state :=
  match k with
  | O => Some s
  | S k' =>
      if st_i s <? 1000000 then
        match main_step fuel s with
        | None => None
        | Some s' => main_iter fuel k' s'
        end
      else None
  end.

Definition main_sum (fuel : nat) : option Z :=
  option_map st_sum (main_loop fuel loop_init).

(** [cout << "Sum: " << sum << "\n"] *)
Definition sum_line (sum : Z) : string :=
  ("Sum: " ++ string_of_Z sum ++ newline)%string.

(** [chrono::duration<double> elapsed = end - start], on the two values
    of [high_resolution_clock::now()] in ticks: the difference of the
    tick counts, converted to [double] and divided by the ticks per
    second. *)
Definition elapsed (now_start now_end : Z) : double :=
  double_div (double_of_Z (wrap_llong (now_end - now_start)))
             (double_of_Z chrono_ticks_per_second).

(** [cout << "Time: " << elapsed.count() << " seconds\n"] *)
Definition time_line (now_start now_end : Z) : string :=
  ("Time: " ++ format_g default_precision (elapsed now_start now_end)
     ++ " seconds" ++ newline)%string.

Definition main (fuel : nat) (now_start now_end : Z) : option string :=
  match main_sum fuel with
  | None => None
  | Some sum =>
      Some (sum_line sum ++ time_line now_start now_end)%string
  end.

End Cpp.

(** ** The algorithm over the integers

    The loop of [is_prime] with the test [i * i <= n] in place of the
    floating-point one, and the summation it feeds. *)

Module Ref.

Fixpoint trial (fuel : nat) (n i : Z) : bool :=
  match fuel with
  | O => true
  | S fuel' =>
      if i * i <=? n then
        if n mod i =? 0 then false else trial fuel' n (i + 1)
      else true
  end.

(** [k] iterations of the summation loop, from candidate [i] and
    accumulator [acc]. *)
Fixpoint sum_from (fuel : nat) (k : nat) (i acc : Z) : Z :=
  match k with
  | O => acc
  | S k' =>
      sum_from fuel k' (i + 1) (if trial fuel i 2 then acc + i else acc)
  end.

End Ref.

(** The same over 63-bit machine integers, for evaluation. *)

Module Fast.

Import Uint63.
Local Open Scope uint63_scope.

Fixpoint trial (fuel : nat) (n i : int) : bool :=
  match fuel with
  | O => true
  | S fuel' =>
      if i * i <=? n then
        if n mod i =? 0 then false else trial fuel' n (i + 1)
      else true
  end.

Fixpoint sum_from (fuel : nat) (k : nat) (i acc : int) : int :=
  match k with
  | O => acc
  | S k' =>
      sum_from fuel k' (i + 1) (if trial fuel i 2 then acc + i else acc)
  end.

End Fast.

(** The invariant of the summation loop: the candidate is in range and
    the accumulator is bounded by a product that fits 64 bits. *)
Definition loop_inv (s : loop_state) : Prop :=
  2 <= st_i s <= 1000000 /\ 0 <= st_sum s <= st_i s * 1000000.

(** The number of candidates of [2, 1000000). *)
Definition candidates : nat := Z.to_nat 999998.

(** A double that is a zero or a finite number whose exponent is at most
    [B] and whose top bit is below 2^(B + 53). *)
Definition bounded_double (B : Z) (x : double) : Prop :=
  match x with
  | S754_zero _ => True
  | S754_finite _ m e => e <= B /\ Zpos (digits2_pos m) + e <= B + 53
  | _ => False
  end.

(** The sum of the primes among the [k] integers from [i] on. *)
Fixpoint prime_sum (k : nat) (i : Z) : Z :=
  match k with
  | O => 0
  | S k' => (if prime_dec i then i else 0) + prime_sum k' (i + 1)
  end.

(** What a line has between [Sum: ] and the end of the line. *)
Definition sum_value (line : string) : string :=
  substring 5 (String.length line - 6) line.

(** The integer that a [Sum:] line shows, read back. *)
Definition read_sum (line : string) : option Z :=
  option_map Z.of_int (NilZero.int_of_string (sum_value line)).

(** Whether a printed number starts with a minus sign. *)
Definition starts_with_minus (s : string) : bool :=
  match s with
  | String c _ => Ascii.eqb c "-"
  | EmptyString => false
  end.

(** ** Facts about binary64 on integer arguments *)

Module DoubleFacts.

(** The number of binary digits of [SpecFloat] is one more than [Z.log2]. *)
Lemma digits2_pos_log2 (p : positive) :
  Zpos (digits2_pos p) = Z.log2 (Zpos p) + 1.
Proof.
  assert (E : digits2_pos p = Pos.size p) by (induction p; simpl; congruence).
  rewrite E. destruct p; simpl; lia.
Qed.

Lemma digits2_pos_unique (p : positive) (d : Z) :
  2 ^ (d - 1) <= Zpos p < 2 ^ d -> Zpos (digits2_pos p) = d.
Proof.
  intros H. rewrite digits2_pos_log2.
  assert (0 <= d - 1).
  { destruct (Z_lt_le_dec (d - 1) 0) as [Hn|]; [|assumption].
    assert (d <= 0) by lia.
    assert (2 ^ d <= 2 ^ 0) by (apply Z.pow_le_mono_r; lia).
    simpl in *. lia. }
  rewrite (Z.log2_unique (Zpos p) (d - 1)); try lia.
  replace (Z.succ (d - 1)) with d by lia. assumption.
Qed.

(** The left shift of [shl_align] multiplies by a power of two. *)
Lemma iter_xO_pow2 (p d : positive) :
  Zpos (Pos.iter xO p d) = Zpos p * 2 ^ Zpos d.
Proof.
  rewrite <- Z.shiftl_mul_pow2 by lia. unfold Z.shiftl.
  apply (Pos.iter_swap_gen _ _ Zpos xO (Z.mul 2)). reflexivity.
Qed.

Lemma shr_record_loc_m (m : Z) (l : location) :
  shr_m (shr_record_of_loc m l) = m.
Proof. destruct l as [|[]]; reflexivity. Qed.

Lemma loc_of_shr_record_of_loc (m : Z) (l : location) :
  loc_of_shr_record (shr_record_of_loc m l) = l.
Proof. destruct l as [|[]]; reflexivity. Qed.

(** A 53-bit mantissa is not shifted. *)
Lemma shr_fexp_normal (m : positive) (e : Z) (l : location) :
  2 ^ 52 <= Zpos m < 2 ^ 53 -> -1074 <= e ->
  shr_fexp prec emax (Zpos m) e l = (shr_record_of_loc (Zpos m) l, e).
Proof.
  intros Hm He. unfold shr_fexp. cbn [Zdigits2].
  rewrite (digits2_pos_unique m 53) by exact Hm.
  unfold fexp, emin, prec, emax.
  replace (Z.max (53 + e - 53) (3 - 1024 - 53) - e) with 0 by lia.
  reflexivity.
Qed.

Lemma round_nearest_even_cases (m : Z) (l : location) :
  round_nearest_even m l = m \/ round_nearest_even m l = m + 1.
Proof.
  destruct l as [|[]]; cbn [round_nearest_even]; auto.
  destruct (Z.even m); auto.
Qed.

Lemma leb_emax (e : Z) : e <= 1 -> (e <=? emax - prec) = true.
Proof. intros H. apply Z.leb_le. unfold emax, prec. lia. Qed.

(** Rounding a 53-bit mantissa: the exponent is kept, unless rounding up
    carries into a 54th bit. *)
Lemma binary_round_aux_normal (m : positive) (e : Z) (l : location) :
  2 ^ 52 <= Zpos m < 2 ^ 53 -> -52 <= e <= 0 ->
  binary_round_aux prec emax false (Zpos m) e l =
    if round_nearest_even (Zpos m) l =? 2 ^ 53
    then S754_finite false (Z.to_pos (2 ^ 52)) (e + 1)
    else S754_finite false (Z.to_pos (round_nearest_even (Zpos m) l)) e.
Proof.
  intros Hm He. unfold binary_round_aux.
  rewrite shr_fexp_normal by (assumption || lia).
  rewrite shr_record_loc_m, loc_of_shr_record_of_loc.
  destruct (round_nearest_even_cases (Zpos m) l) as [-> | ->].
  - rewrite shr_fexp_normal by (assumption || lia).
    cbn [shr_m shr_record_of_loc].
    rewrite leb_emax by lia.
    destruct (Z.eqb_spec (Zpos m) (2 ^ 53)); [lia | reflexivity].
  - destruct (Z.eqb_spec (Zpos m + 1) (2 ^ 53)) as [E | N].
    + rewrite E. unfold shr_fexp, fexp, emin, prec, emax.
      change (Zdigits2 (2 ^ 53)) with 54.
      replace (Z.max (54 + e - 53) (3 - 1024 - 53) - e) with 1 by lia.
      cbn [shr shr_record_of_loc iter_pos].
      replace (e + 1 <=? 1024 - 53) with true by (symmetry; apply Z.leb_le; lia).
      reflexivity.
    + assert (Hp : Zpos m + 1 = Zpos (m + 1)) by lia.
      rewrite Hp. rewrite shr_fexp_normal by lia.
      cbn [shr_m shr_record_of_loc].
      rewrite leb_emax by lia. reflexivity.
Qed.

Lemma binary_round_aux_exact (m : positive) (e : Z) :
  2 ^ 52 <= Zpos m < 2 ^ 53 -> -52 <= e <= 0 ->
  binary_round_aux prec emax false (Zpos m) e loc_Exact = S754_finite false m e.
Proof.
  intros Hm He. rewrite binary_round_aux_normal by assumption.
  cbn [round_nearest_even].
  destruct (Z.eqb_spec (Zpos m) (2 ^ 53)); [lia | reflexivity].
Qed.

(** An integer below 2^53 converts exactly, to a normalised mantissa. *)
Lemma double_of_Z_normal (z : Z) :
  0 < z < 2 ^ 53 ->
  exists m e,
    double_of_Z z = S754_finite false m e /\
    2 ^ 52 <= Zpos m < 2 ^ 53 /\ e = Z.log2 z - 52 /\ -52 <= e <= 0 /\
    Zpos m = z * 2 ^ (- e).
Proof.
  intros Hz. destruct z as [|p|p]; try lia.
  unfold double_of_Z, binary_normalize, binary_round.
  rewrite digits2_pos_log2.
  pose proof (Z.log2_spec (Zpos p) ltac:(lia)) as Hk.
  pose proof (Z.log2_nonneg (Zpos p)) as Hk0.
  assert (Hk52 : Z.log2 (Zpos p) < 53) by (apply Z.log2_lt_pow2; lia).
  set (k := Z.log2 (Zpos p)) in *.
  unfold fexp, emin. unfold prec at 1, emax at 1. unfold prec at 1.
  replace (Z.max (k + 1 + 0 - 53) (3 - 1024 - 53)) with (k - 52) by lia.
  unfold shl_align.
  destruct (k - 52 - 0) as [|d|d] eqn:Ed; try lia.
  - assert (Ek : k = 52) by lia. rewrite Ek in *.
    change (Z.succ 52) with 53 in Hk.
    exists p, 0. rewrite binary_round_aux_exact by lia.
    repeat split; lia.
  - assert (Hd : Zpos d = 52 - k) by lia.
    assert (Hm : 2 ^ 52 <= Zpos (Pos.iter xO p d) < 2 ^ 53).
    { rewrite iter_xO_pow2, Hd.
      assert (E1 : 2 ^ 52 = 2 ^ k * 2 ^ (52 - k))
        by (rewrite <- Z.pow_add_r by lia; f_equal; lia).
      assert (E2 : 2 ^ 53 = 2 ^ Z.succ k * 2 ^ (52 - k))
        by (rewrite <- Z.pow_add_r by lia; f_equal; lia).
      rewrite E1, E2.
      assert (0 < 2 ^ (52 - k)) by (apply Z.pow_pos_nonneg; lia).
      split; [apply Z.mul_le_mono_nonneg_r | apply Z.mul_lt_mono_pos_r]; lia. }
    exists (Pos.iter xO p d), (k - 52).
    rewrite binary_round_aux_exact by (assumption || lia).
    repeat split; try lia.
    rewrite iter_xO_pow2, Hd. f_equal. f_equal. lia.
Qed.

(** Two positive normalised doubles compare as their values do; the
    values are scaled by 2^52 to stay in [Z]. *)
Lemma double_le_normal (m1 m2 : positive) (e1 e2 : Z) :
  2 ^ 52 <= Zpos m1 < 2 ^ 53 -> 2 ^ 52 <= Zpos m2 < 2 ^ 53 ->
  -52 <= e1 -> -52 <= e2 ->
  double_le (S754_finite false m1 e1) (S754_finite false m2 e2) =
    (Zpos m1 * 2 ^ (e1 + 52) <=? Zpos m2 * 2 ^ (e2 + 52)).
Proof.
  intros H1 H2 He1 He2. unfold double_le, SFleb, SFcompare.
  assert (P1 : 0 < 2 ^ (e1 + 52)) by (apply Z.pow_pos_nonneg; lia).
  assert (P2 : 0 < 2 ^ (e2 + 52)) by (apply Z.pow_pos_nonneg; lia).
  destruct (Z.compare_spec e1 e2) as [E | L | G].
  - subst e2. fold (Pos.compare m1 m2).
    destruct (Pos.compare_spec m1 m2) as [E | L | G]; symmetry.
    + subst. apply Z.leb_le. lia.
    + apply Z.leb_le. apply Z.mul_le_mono_nonneg_r; lia.
    + apply Z.leb_gt. apply Z.mul_lt_mono_pos_r; lia.
  - symmetry. apply Z.leb_le.
    assert (E : 2 ^ (e2 + 52) = 2 * 2 ^ (e1 + 52) * 2 ^ (e2 - e1 - 1)).
    { rewrite <- Z.pow_succ_r, <- Z.pow_add_r by lia. f_equal. lia. }
    assert (0 < 2 ^ (e2 - e1 - 1)) by (apply Z.pow_pos_nonneg; lia).
    rewrite E. nia.
  - symmetry. apply Z.leb_gt.
    assert (E : 2 ^ (e1 + 52) = 2 * 2 ^ (e2 + 52) * 2 ^ (e1 - e2 - 1)).
    { rewrite <- Z.pow_succ_r, <- Z.pow_add_r by lia. f_equal. lia. }
    assert (0 < 2 ^ (e1 - e2 - 1)) by (apply Z.pow_pos_nonneg; lia).
    rewrite E. nia.
Qed.

(** The square root of a positive normalised double of exponent [e]:
    with [a = 26 - e/2], the mantissa of the result is the integer square
    root [q] of the argument scaled by 2^(2a), rounded up when the
    remainder exceeds [q]. *)
Lemma sqrt_normal (m : positive) (e : Z) :
  2 ^ 52 <= Zpos m < 2 ^ 53 -> -52 <= e <= 0 ->
  let a := 26 - Z.div2 e in
  let x := Zpos m * 2 ^ (e + 2 * a) in
  let q := Z.sqrt x in
  exists m' e',
    sqrt (S754_finite false m e) = S754_finite false m' e' /\
    2 ^ 52 <= Zpos m' < 2 ^ 53 /\ -52 <= e' /\
    Zpos m' * 2 ^ (e' + 52) =
      (if x - q * q <=? q then q else q + 1) * 2 ^ (52 - a).
Proof.
  intros Hm He a x q.
  assert (Ha : e - 1 <= 2 * Z.div2 e <= e)
    by (rewrite Z.div2_div; Z.div_mod_to_equations; lia).
  unfold sqrt, SFsqrt, SFsqrt_core_binary. cbn [Zdigits2].
  rewrite (digits2_pos_unique m 53) by exact Hm.
  assert (E0 : Z.min (fexp prec emax (Z.div2 (53 + e + 1))) (Z.div2 e) = - a).
  { unfold fexp, emin, prec, emax, a.
    assert (Z.div2 (53 + e + 1) = 27 + Z.div2 e)
      by (rewrite !Z.div2_div; Z.div_mod_to_equations; lia).
    lia. }
  rewrite E0.
  assert (Es : e - 2 * - a = e + 2 * a) by lia. rewrite Es.
  assert (Hs : 52 <= e + 2 * a <= 53) by (unfold a; lia).
  assert (Ex : match e + 2 * a with
               | 0 => Zpos m
               | Zpos _ => Z.shiftl (Zpos m) (e + 2 * a)
               | Zneg _ => 0
               end = x).
  { unfold x. rewrite <- Z.shiftl_mul_pow2 by lia.
    destruct (e + 2 * a); try lia; reflexivity. }
  rewrite Ex.
  assert (Hx : 2 ^ 52 * 2 ^ 52 <= x < 2 ^ 53 * 2 ^ 53).
  { unfold x. destruct (Z.eq_dec (e + 2 * a) 52) as [-> | N].
    - nia.
    - replace (e + 2 * a) with 53 by lia. nia. }
  assert (Hq : 2 ^ 52 <= q < 2 ^ 53).
  { unfold q. split.
    - apply Z.sqrt_le_square; lia.
    - apply Z.sqrt_lt_square; lia. }
  pose proof (Z.sqrtrem_spec x ltac:(lia)) as Hsr.
  pose proof (Z.sqrtrem_sqrt x) as Hfst.
  destruct (Z.sqrtrem x) as [q' r]. cbn [fst] in Hfst. fold q in Hfst.
  subst q'. destruct Hsr as [Hxq Hr].
  replace (x - q * q) with r by lia.
  destruct q as [|qp|qp] eqn:Eq; try lia.
  rewrite binary_round_aux_normal by (lia || (unfold a; lia)).
  assert (Hrne : round_nearest_even (Zpos qp)
                   (if r =? 0 then loc_Exact
                    else loc_Inexact (if r <=? Zpos qp then Lt else Gt)) =
                 if r <=? Zpos qp then Zpos qp else Zpos qp + 1).
  { destruct (Z.eqb_spec r 0) as [-> | N]; [reflexivity|].
    destruct (r <=? Zpos qp); reflexivity. }
  rewrite Hrne. clear Hrne.
  set (M := if r <=? Zpos qp then Zpos qp else Zpos qp + 1).
  assert (HM : 2 ^ 52 <= M <= 2 ^ 53) by (unfold M; destruct (r <=? Zpos qp); lia).
  replace (- a + 52) with (52 - a) by lia.
  destruct (Z.eqb_spec M (2 ^ 53)) as [E | N].
  - exists (Z.to_pos (2 ^ 52)), (- a + 1).
    split; [reflexivity|].
    change (Zpos (Z.to_pos (2 ^ 52))) with (2 ^ 52).
    split; [lia|]. split; [unfold a; lia|].
    rewrite E. replace (- a + 1 + 52) with (Z.succ (52 - a)) by lia.
    rewrite Z.pow_succ_r by (unfold a; lia). lia.
  - exists (Z.to_pos M), (- a).
    split; [reflexivity|].
    rewrite Z2Pos.id by lia.
    split; [lia|]. split; [unfold a; lia|].
    replace (- a + 52) with (52 - a) by lia. reflexivity.
Qed.

(** The loop test [i <= sqrt(n)] of [is_prime], evaluated in binary64 on
    positive [int]s, decides [i * i <= n]. *)
Lemma sqrt_guard (n i : Z) :
  0 < n <= INT_MAX -> 0 < i <= INT_MAX ->
  double_le (double_of_Z i) (sqrt (double_of_Z n)) = (i * i <=? n).
Proof.
  unfold INT_MAX. intros Hn Hi.
  destruct (double_of_Z_normal i ltac:(lia)) as (mi & ei & -> & Hmi & Eei & Hei & Emi).
  destruct (double_of_Z_normal n ltac:(lia)) as (mn & en & -> & Hmn & Een & Hen & Emn).
  assert (Hlog : Z.log2 n < 31) by (apply Z.log2_lt_pow2; lia).
  destruct (sqrt_normal mn en Hmn Hen) as (mr & er & -> & Hmr & Her & Emr).
  rewrite double_le_normal by (assumption || lia).
  rewrite Emr. clear Emr.
  assert (Hd : en - 1 <= 2 * Z.div2 en <= en)
    by (rewrite Z.div2_div; Z.div_mod_to_equations; lia).
  set (a := 26 - Z.div2 en) in *.
  assert (Ha : 37 <= a <= 52) by (unfold a; lia).
  assert (Ex : Zpos mn * 2 ^ (en + 2 * a) = n * (2 ^ a * 2 ^ a)).
  { rewrite Emn, <- Z.mul_assoc, <- !Z.pow_add_r by lia.
    f_equal. f_equal. lia. }
  rewrite Ex. clear Ex.
  assert (Ei : Zpos mi * 2 ^ (ei + 52) = i * 2 ^ a * 2 ^ (52 - a)).
  { rewrite Emi, <- !Z.mul_assoc, <- !Z.pow_add_r by lia.
    f_equal. f_equal. lia. }
  rewrite Ei. clear Ei.
  assert (HA : 2 ^ 37 <= 2 ^ a) by (apply Z.pow_le_mono_r; lia).
  assert (HB : 0 < 2 ^ (52 - a)) by (apply Z.pow_pos_nonneg; lia).
  generalize dependent (2 ^ a). intros A HA.
  generalize dependent (2 ^ (52 - a)). intros B HB.
  pose proof (Z.sqrt_spec (n * (A * A)) ltac:(nia)) as Hq. cbv zeta in Hq.
  pose proof (Z.sqrt_nonneg (n * (A * A))) as Hq0.
  set (q := Z.sqrt (n * (A * A))) in *.
  set (M := if n * (A * A) - q * q <=? q then q else q + 1).
  assert (HM : i * A <= M <-> i * i <= n).
  { split.
    - intros H. destruct (Z_le_gt_dec (i * i) n) as [|G]; [assumption|exfalso].
      assert (n * (A * A) + A * A <= i * A * (i * A)) by nia.
      assert (q < i * A) by (apply Z.square_lt_simpl_nonneg; lia).
      unfold M in H.
      destruct (Z.leb_spec (n * (A * A) - q * q) q); [lia|].
      assert (q + 1 = i * A) by lia.
      assert (i * A <= (A - 1) * A) by (apply Z.mul_le_mono_nonneg_r; lia).
      nia.
    - intros H.
      assert (i * A * (i * A) <= n * (A * A)) by nia.
      assert (i * A < q + 1) by (apply Z.square_lt_simpl_nonneg; lia).
      unfold M. destruct (n * (A * A) - q * q <=? q); lia. }
  destruct (Z.leb_spec (i * i) n) as [L | G].
  - apply Z.leb_le. apply Z.mul_le_mono_nonneg_r; [lia | tauto].
  - apply Z.leb_gt. apply Z.mul_lt_mono_pos_r; [lia|].
    destruct (Z_lt_le_dec M (i * A)); [assumption | exfalso]. lia.
Qed.

(** *** Rounding never overflows on small numbers *)

(** One step of [shr] halves the mantissa, and [n] steps divide it by
    [2 ^ n]. *)
Lemma shr_1_m (r : shr_record) :
  0 <= shr_m r -> shr_m (shr_1 r) = shr_m r / 2.
Proof.
  destruct r as [m b s]. cbn [shr_m]. intros Hm.
  destruct m as [|p|p]; [reflexivity | | lia].
  destruct p as [p|p|]; cbn [shr_1 shr_m].
  - rewrite Pos2Z.inj_xI. Z.div_mod_to_equations. lia.
  - rewrite Pos2Z.inj_xO. Z.div_mod_to_equations. lia.
  - reflexivity.
Qed.

Lemma iter_shr_1_m (n : positive) (r : shr_record) :
  0 <= shr_m r -> shr_m (iter_pos shr_1 n r) = shr_m r / 2 ^ Zpos n.
Proof.
  revert r. induction n as [n IH|n IH|]; intros r Hm; cbn [iter_pos].
  - pose proof (shr_1_m r Hm) as E1.
    assert (H1 : 0 <= shr_m (shr_1 r)) by (rewrite E1; apply Z.div_pos; lia).
    pose proof (IH _ H1) as E2.
    assert (H2 : 0 <= shr_m (iter_pos shr_1 n (shr_1 r)))
      by (rewrite E2; apply Z.div_pos; [|apply Z.pow_pos_nonneg]; lia).
    rewrite (IH _ H2), E2, E1.
    assert (P : 0 < 2 ^ Zpos n) by (apply Z.pow_pos_nonneg; lia).
    assert (E : 2 ^ Zpos n~1 = 2 * (2 ^ Zpos n * 2 ^ Zpos n)).
    { rewrite <- Z.pow_add_r, <- Z.pow_succ_r by lia. f_equal. lia. }
    rewrite E, !Z.div_div by lia. reflexivity.
  - pose proof (IH _ Hm) as E1.
    assert (P : 0 < 2 ^ Zpos n) by (apply Z.pow_pos_nonneg; lia).
    assert (H1 : 0 <= shr_m (iter_pos shr_1 n r))
      by (rewrite E1; apply Z.div_pos; lia).
    rewrite (IH _ H1), E1.
    assert (E : 2 ^ Zpos n~0 = 2 ^ Zpos n * 2 ^ Zpos n).
    { rewrite <- Z.pow_add_r by lia. f_equal. lia. }
    rewrite E, !Z.div_div by lia. reflexivity.
  - apply shr_1_m. assumption.
Qed.

Lemma Zdigits2_log2 (m : Z) : 0 < m -> Zdigits2 m = Z.log2 m + 1.
Proof.
  destruct m as [|p|p]; try lia. intros _. apply digits2_pos_log2.
Qed.

Lemma Zdigits2_nonneg (m : Z) : 0 <= Zdigits2 m.
Proof. destruct m; cbn; lia. Qed.

(** What a right shift by [fexp] does to a nonnegative mantissa: the
    mantissa does not grow and the top bit does not rise. *)
Lemma shr_fexp_bound (m e : Z) (l : location) (B : Z) :
  0 <= m -> -1074 <= B -> e <= B -> Zdigits2 m + e <= B + 53 ->
  let '(r, e') := shr_fexp prec emax m e l in
  0 <= shr_m r /\ e' <= B /\ Zdigits2 (shr_m r) + e' <= B + 53.
Proof.
  intros Hm HB He Hd. unfold shr_fexp, shr.
  destruct (fexp prec emax (Zdigits2 m + e) - e) as [|n|n] eqn:En;
    try (rewrite shr_record_loc_m; lia).
  assert (H0 : 0 <= shr_m (shr_record_of_loc m l))
    by (rewrite shr_record_loc_m; exact Hm).
  rewrite (iter_shr_1_m n _ H0), shr_record_loc_m.
  assert (P : 0 < 2 ^ Zpos n) by (apply Z.pow_pos_nonneg; lia).
  assert (Q : 0 <= m / 2 ^ Zpos n) by (apply Z.div_pos; lia).
  split; [exact Q|].
  assert (Ee : e + Zpos n = fexp prec emax (Zdigits2 m + e)) by lia.
  unfold fexp, emin, prec, emax in Ee.
  split; [lia|].
  destruct (Z.eq_dec (m / 2 ^ Zpos n) 0) as [-> | N]; [cbn [Zdigits2]; lia|].
  assert (Hm' : 0 < m).
  { destruct (Z.eq_dec m 0) as [-> |]; [|lia].
    rewrite Z.div_0_l in N; lia. }
  rewrite Zdigits2_log2 by lia.
  rewrite <- Z.shiftr_div_pow2 by lia.
  rewrite Z.log2_shiftr by exact Hm'.
  rewrite Zdigits2_log2 in Hd, Ee by exact Hm'. lia.
Qed.

Lemma Zdigits2_le (a b : Z) : 0 <= a <= b -> Zdigits2 a <= Zdigits2 b.
Proof.
  intros H. destruct (Z.eq_dec a 0) as [-> | N].
  - apply Zdigits2_nonneg.
  - rewrite !Zdigits2_log2 by lia.
    pose proof (Z.log2_le_mono a b ltac:(lia)). lia.
Qed.

Lemma Zdigits2_succ (m : Z) : 0 <= m -> Zdigits2 (m + 1) <= Zdigits2 m + 1.
Proof.
  intros H. destruct (Z.eq_dec m 0) as [-> | N]; [vm_compute; discriminate|].
  rewrite !Zdigits2_log2 by lia.
  pose proof (Z.log2_succ_le m) as L. unfold Z.succ in L. lia.
Qed.

Lemma Zdigits2_mul_pow2 (m k : Z) :
  0 < m -> 0 <= k -> Zdigits2 (m * 2 ^ k) = Zdigits2 m + k.
Proof.
  intros Hm Hk.
  assert (0 < 2 ^ k) by (apply Z.pow_pos_nonneg; lia).
  rewrite !Zdigits2_log2 by nia.
  rewrite Z.log2_mul_pow2 by lia. lia.
Qed.

(** Rounding a nonnegative mantissa whose top bit is far below [emax]
    gives a zero or a finite double, one binary place higher at most. *)
Lemma binary_round_aux_bounded (sx : bool) (m e : Z) (l : location) (B : Z) :
  0 <= m -> -1074 <= B -> B + 1 <= 971 ->
  e <= B -> Zdigits2 m + e <= B + 53 ->
  bounded_double (B + 1) (binary_round_aux prec emax sx m e l).
Proof.
  intros Hm HB HB' He Hd. unfold binary_round_aux.
  pose proof (shr_fexp_bound m e l B Hm HB He Hd) as H1.
  destruct (shr_fexp prec emax m e l) as [r1 e1]. destruct H1 as (M1 & E1 & D1).
  set (M := round_nearest_even (shr_m r1) (loc_of_shr_record r1)).
  assert (HM : 0 <= M /\ Zdigits2 M <= Zdigits2 (shr_m r1) + 1).
  { unfold M.
    destruct (round_nearest_even_cases (shr_m r1) (loc_of_shr_record r1))
      as [-> | ->]; [lia|].
    split; [lia | apply Zdigits2_succ; exact M1]. }
  pose proof (shr_fexp_bound M e1 loc_Exact (B + 1) (proj1 HM)
                ltac:(lia) ltac:(lia) ltac:(lia)) as H2.
  destruct (shr_fexp prec emax M e1 loc_Exact) as [r2 e2].
  destruct H2 as (M2 & E2 & D2).
  destruct (shr_m r2) as [|p|p]; [exact I | | lia].
  rewrite (proj2 (Z.leb_le e2 (emax - prec))) by (unfold emax, prec; lia).
  cbn [bounded_double Zdigits2] in *. lia.
Qed.

(** So does the conversion of a 64-bit integer. *)
Lemma double_of_Z_bounded (z : Z) :
  - 2 ^ 63 <= z <= 2 ^ 63 -> bounded_double 12 (double_of_Z z).
Proof.
  intros Hz. unfold double_of_Z, binary_normalize.
  assert (R : forall sx p, Zpos p <= 2 ^ 63 ->
                bounded_double 12 (binary_round prec emax sx p 0)).
  { intros sx p Hp. unfold binary_round, shl_align.
    assert (D : Zdigits2 (Zpos p) <= 64).
    { change 64 with (Zdigits2 (2 ^ 63)). apply Zdigits2_le. lia. }
    pose proof (Zdigits2_nonneg (Zpos p)) as D0.
    cbn [Zdigits2] in D, D0.
    destruct (fexp prec emax (Zpos (digits2_pos p) + 0) - 0) as [|k|k] eqn:Ek.
    - apply (binary_round_aux_bounded sx (Zpos p) 0 loc_Exact 11);
        cbn [Zdigits2]; lia.
    - apply (binary_round_aux_bounded sx (Zpos p) 0 loc_Exact 11);
        cbn [Zdigits2]; lia.
    - assert (Hk : fexp prec emax (Zpos (digits2_pos p) + 0) = - Zpos k)
        by lia.
      rewrite Hk. clear Ek.
      unfold fexp, emin, prec, emax in Hk.
      apply (binary_round_aux_bounded sx _ _ loc_Exact 11); try lia.
      rewrite iter_xO_pow2, Zdigits2_mul_pow2 by lia.
      cbn [Zdigits2]. lia. }
  destruct z as [|p|p]; [exact I | apply R; lia | apply R; lia].
Qed.

(** So does the division by a finite double of exponent -33 or more. *)
Lemma double_div_bounded (x : double) (sy : bool) (my : positive) (ey : Z) :
  bounded_double 12 x -> -33 <= ey ->
  bounded_double 46 (double_div x (S754_finite sy my ey)).
Proof.
  intros Hx Hey. destruct x as [sx|sx| |sx mx ex]; try contradiction.
  - exact I.
  - cbn [bounded_double] in Hx. destruct Hx as [He Hd].
    unfold double_div, SFdiv, SFdiv_core_binary.
    set (e' := Z.min _ _).
    assert (He' : e' <= ex - ey) by (unfold e'; lia).
    clearbody e'.
    set (m' := match ex - ey - e' with
               | 0 => Zpos mx
               | Zpos _ => Z.shiftl (Zpos mx) (ex - ey - e')
               | Zneg _ => 0
               end).
    assert (Hm' : 0 <= m' /\ Zdigits2 m' <= Zdigits2 (Zpos mx) + (ex - ey - e')).
    { unfold m'. destruct (ex - ey - e') as [|s|s] eqn:Es; try lia.
      - rewrite Z.shiftl_mul_pow2, Zdigits2_mul_pow2 by lia.
        pose proof (Z.pow_pos_nonneg 2 (Zpos s)). nia. }
    clearbody m'.
    destruct (Z.div_eucl m' (Zpos my)) as [q r] eqn:Eq.
    assert (Hq : q = m' / Zpos my) by (unfold Z.div; rewrite Eq; reflexivity).
    assert (Hq0 : 0 <= q <= m').
    { rewrite Hq. split; [apply Z.div_pos; lia|].
      apply Z.div_le_upper_bound; [lia|]. nia. }
    apply (binary_round_aux_bounded _ q e' _ 45); try lia.
    pose proof (Zdigits2_le q m' Hq0). cbn [Zdigits2] in *. lia.
Qed.

End DoubleFacts.

(** ** The integer algorithm and its machine-integer evaluation *)

Module RefFacts.

(** With enough fuel, [Ref.trial] accepts [n] exactly when no candidate
    from [i] up to the integer square root of [n] divides it. *)
Lemma trial_spec (fuel : nat) (n i : Z) :
  0 <= n -> 0 < i -> Z.sqrt n + 1 - i <= Z.of_nat fuel ->
  Ref.trial fuel n i = true <->
  (forall j, i <= j <= Z.sqrt n -> n mod j <> 0).
Proof.
  revert i. induction fuel as [|fuel IH]; intros i Hn Hi Hf.
  - cbn [Ref.trial]. split; [intros _ j Hj; lia | reflexivity].
  - cbn [Ref.trial]. destruct (Z.leb_spec (i * i) n) as [L | G].
    + assert (Hs : i <= Z.sqrt n) by (apply Z.sqrt_le_square; lia).
      destruct (Z.eqb_spec (n mod i) 0) as [E | N].
      * split; [discriminate|]. intros H. exfalso. apply (H i); [lia | exact E].
      * rewrite IH by lia. split; intros H j Hj.
        -- destruct (Z.eq_dec j i) as [-> | ]; [exact N | apply H; lia].
        -- apply H. lia.
    + assert (Hs : Z.sqrt n < i) by (apply Z.sqrt_lt_square; lia).
      split; [intros _ j Hj; lia | reflexivity].
Qed.

(** Trial division up to the square root decides primality. *)
Lemma prime_iff_no_divisor (n : Z) :
  1 < n ->
  prime n <-> forall i, 2 <= i <= Z.sqrt n -> ~ (i | n).
Proof.
  intros Hn.
  pose proof (Z.sqrt_spec n ltac:(lia)) as Hs. cbv zeta in Hs.
  pose proof (Z.sqrt_nonneg n) as Hs0.
  split.
  - intros P i Hi D.
    assert (Hlt : 1 <= i < n) by nia.
    destruct P as [_ R]. destruct (R i Hlt) as [_ _ G].
    pose proof (G i (Z.divide_refl i) D) as D1.
    apply Z.divide_1_r in D1. lia.
  - intros H. apply prime_alt. split; [exact Hn|].
    intros d Hd [q Hq].
    assert (Hq1 : 1 < q < n) by nia.
    destruct (Z_le_gt_dec d (Z.sqrt n)) as [L | G].
    + apply (H d); [lia | exists q; exact Hq].
    + destruct (Z_le_gt_dec q (Z.sqrt n)) as [L' | G'].
      * apply (H q); [lia | exists d; lia].
      * assert ((Z.sqrt n + 1) * (Z.sqrt n + 1) <= q * d)
          by (apply Z.mul_le_mono_nonneg; lia).
        unfold Z.succ in Hs. lia.
Qed.

Local Open Scope uint63_scope.

(** On numbers below 2^31 the machine-integer loop computes [Ref.trial]:
    no product and no sum wraps around 2^63. *)
Lemma fast_trial (fuel : nat) (n i : int) :
  (φ n < 2 ^ 31)%Z -> (0 < φ i < 2 ^ 31)%Z ->
  Fast.trial fuel n i = Ref.trial fuel (φ n) (φ i).
Proof.
  revert i. induction fuel as [|fuel IH]; intros i Hn Hi; [reflexivity|].
  cbn [Fast.trial Ref.trial].
  assert (Hw : wB = (2 ^ 63)%Z) by reflexivity.
  assert (Hii : φ (i * i) = (φ i * φ i)%Z).
  { rewrite mul_spec. apply Z.mod_small. rewrite Hw. nia. }
  destruct (lebP (i * i) n) as [L | G]; rewrite Hii in *.
  - rewrite (proj2 (Z.leb_le _ _) L).
    assert (Hm : (n mod i =? 0) = (φ n mod φ i =? 0)%Z).
    { destruct (eqbP (n mod i) 0) as [E | N];
        rewrite mod_spec, to_Z_0 in *; symmetry;
        [apply Z.eqb_eq | apply Z.eqb_neq]; assumption. }
    rewrite Hm. destruct (φ n mod φ i =? 0)%Z; [reflexivity|].
    assert (Hi1 : φ (i + 1) = (φ i + 1)%Z).
    { rewrite add_spec, to_Z_1. apply Z.mod_small. rewrite Hw. lia. }
    assert (Hi2 : (φ i + 1 < 2 ^ 31)%Z) by nia.
    rewrite IH; rewrite ?Hi1; try lia. reflexivity.
  - rewrite (proj2 (Z.leb_gt _ _)) by lia. reflexivity.
Qed.

(** Likewise for the summation, as long as the accumulator stays below
    2^63. *)
Lemma fast_sum_from (fuel k : nat) (i acc : int) :
  (0 < φ i)%Z -> (φ i + Z.of_nat k <= 2 ^ 31)%Z ->
  (φ acc + Z.of_nat k * 2 ^ 31 < 2 ^ 63)%Z ->
  φ (Fast.sum_from fuel k i acc) = Ref.sum_from fuel k (φ i) (φ acc).
Proof.
  revert i acc. induction k as [|k IH]; intros i acc Hi Hk Hacc; [reflexivity|].
  cbn [Fast.sum_from Ref.sum_from].
  assert (Hw : wB = (2 ^ 63)%Z) by reflexivity.
  pose proof (to_Z_bounded acc) as Hb.
  assert (Hi1 : φ (i + 1) = (φ i + 1)%Z).
  { rewrite add_spec, to_Z_1. apply Z.mod_small. rewrite Hw. lia. }
  assert (Hs : φ (acc + i) = (φ acc + φ i)%Z).
  { rewrite add_spec. apply Z.mod_small. rewrite Hw. lia. }
  rewrite IH.
  - rewrite Hi1.
    rewrite fast_trial; [| lia | change (φ 2) with 2%Z; lia].
    change (φ 2) with 2%Z.
    destruct (Ref.trial fuel (φ i) 2); rewrite ?Hs; reflexivity.
  - lia.
  - lia.
  - destruct (Fast.trial fuel i 2); rewrite ?Hs; lia.
Qed.

(** Once there is enough of it, the fuel does not matter. *)
Lemma trial_fuel (fuel fuel' : nat) (n i : Z) :
  0 <= n -> 0 < i ->
  Z.sqrt n + 1 - i <= Z.of_nat fuel -> Z.sqrt n + 1 - i <= Z.of_nat fuel' ->
  Ref.trial fuel n i = Ref.trial fuel' n i.
Proof.
  intros Hn Hi Hf Hf'.
  pose proof (trial_spec fuel n i Hn Hi Hf) as H.
  pose proof (trial_spec fuel' n i Hn Hi Hf') as H'.
  destruct (Ref.trial fuel n i), (Ref.trial fuel' n i); try reflexivity.
  - symmetry. apply H'. apply H. reflexivity.
  - apply H. apply H'. reflexivity.
Qed.

End RefFacts.

(** ** The shape of [%.2f] *)

Module StdioFacts.

Local Open Scope string_scope.

(** What [string_of_Z] and [pad_digits] print are digits. *)
Lemma is_digit_digit (d : Z) : 0 <= d < 10 -> is_digit (digit d) = true.
Proof.
  intros H.
  assert (C : d = 0 \/ d = 1 \/ d = 2 \/ d = 3 \/ d = 4 \/ d = 5 \/ d = 6
              \/ d = 7 \/ d = 8 \/ d = 9) by lia.
  repeat (destruct C as [-> | C]; [reflexivity|]). subst d. reflexivity.
Qed.

Lemma fixed_two_uint (d : Decimal.uint) (seen : bool) (rest : string) :
  fixed_two seen (NilEmpty.string_of_uint d ++ rest) =
    fixed_two (match d with Decimal.Nil => seen | _ => true end) rest.
Proof.
  revert seen. induction d as [|d IH|d IH|d IH|d IH|d IH|d IH|d IH|d IH|d IH|d IH];
    intros seen; [reflexivity|..];
    cbn [NilEmpty.string_of_uint append];
    (etransitivity; [apply (IH true)|]); destruct d; reflexivity.
Qed.

Lemma two_decimal_places_uint (d : Decimal.uint) (rest : string) :
  two_decimal_places (NilZero.string_of_uint d ++ rest) = fixed_two true rest.
Proof.
  destruct d; [reflexivity|..];
    cbn [NilZero.string_of_uint NilEmpty.string_of_uint append];
    (etransitivity; [apply (fixed_two_uint _ true)|]); destruct d; reflexivity.
Qed.

Lemma fixed_two_uint_first (d : Decimal.uint) (rest : string) :
  fixed_two false (NilZero.string_of_uint d ++ rest) = fixed_two true rest.
Proof.
  destruct d; [reflexivity|..];
    cbn [NilZero.string_of_uint NilEmpty.string_of_uint append];
    (etransitivity; [apply (fixed_two_uint _ true)|]); destruct d; reflexivity.
Qed.

Lemma fixed_two_fraction (n : Z) :
  fixed_two true ("." ++ pad_digits 2 n) = true.
Proof.
  cbn [append pad_digits fixed_two].
  change (is_digit ".") with false. change (Ascii.eqb "." ".") with true.
  cbn [andb].
  rewrite !is_digit_digit by (apply Z.mod_pos_bound; lia). reflexivity.
Qed.

(** The rounded magnitude is not negative. *)
Lemma round_half_even_nonneg (num den : Z) :
  (0 <= num -> 0 < den -> 0 <= round_half_even (num, den))%Z.
Proof.
  intros Hn Hd. unfold round_half_even.
  assert (0 <= num / den)%Z by (apply Z.div_pos; lia).
  destruct (2 * (num mod den) ?= den)%Z; try lia.
  destruct (Z.even (num / den)); lia.
Qed.

Lemma magnitude_fraction (x : double) :
  (0 <= fst (magnitude x) /\ 0 < snd (magnitude x))%Z.
Proof.
  destruct x as [s|s| |s m e]; cbn [magnitude fst snd]; try lia.
  destruct (0 <=? e)%Z eqn:E; cbn [fst snd].
  - apply Z.leb_le in E. pose proof (Z.pow_pos_nonneg 2 e). nia.
  - apply Z.leb_gt in E. pose proof (Z.pow_pos_nonneg 2 (- e)). lia.
Qed.

(** [%.2f] of a zero or of a finite double has two decimal places. *)
Lemma two_decimal_places_format_f (x : double) (B : Z) :
  bounded_double B x -> two_decimal_places (format_f 2 x) = true.
Proof.
  intros Hx.
  assert (H : forall (sign : string) (n : Z),
             0 <= n -> sign = "" \/ sign = "-" ->
             two_decimal_places
               (sign ++ string_of_Z (n / 10 ^ Z.of_nat 2) ++
                "." ++ pad_digits 2 n) = true).
  { intros sign n Hn Hs.
    assert (Hq : 0 <= n / 10 ^ Z.of_nat 2) by (apply Z.div_pos; cbn; lia).
    unfold string_of_Z.
    destruct (n / 10 ^ Z.of_nat 2) as [|p|p]; [| |lia];
      cbn [Z.to_int NilZero.string_of_int];
      (destruct Hs as [-> | ->];
       [ change ("" ++ ?s) with s;
         rewrite two_decimal_places_uint
       | change (two_decimal_places ("-" ++ ?s)) with (fixed_two false s);
         rewrite fixed_two_uint_first ]);
      apply fixed_two_fraction. }
  unfold format_f.
  destruct x as [s|s| |s m e]; try contradiction.
  - apply H; [cbn; lia | destruct s; auto].
  - apply H; [| destruct s; auto].
    pose proof (magnitude_fraction (S754_finite s m e)) as [Hn Hd].
    destruct (magnitude (S754_finite s m e)) as [num den].
    cbn [fst snd] in Hn, Hd. unfold scale.
    change (0 <=? Z.of_nat 2)%Z with true. cbv iota.
    apply round_half_even_nonneg; lia.
Qed.

Lemma append_length (s t : string) :
  String.length (s ++ t) = (String.length s + String.length t)%nat.
Proof. induction s as [|c s IH]; cbn; congruence. Qed.

Lemma substring_append (s t : string) :
  substring 0 (String.length s) (s ++ t) = s.
Proof. induction s as [|c s IH]; [destruct t; reflexivity | cbn; congruence]. Qed.

(** [time_value] gives back what a line has between its two ends. *)
Lemma time_value_line (v : string) :
  time_value ("Time: " ++ v ++ " seconds" ++ newline) = v.
Proof.
  unfold time_value.
  change (String.length ("Time: " ++ v ++ " seconds" ++ newline))
    with (6 + String.length (v ++ " seconds" ++ newline))%nat.
  rewrite append_length.
  change (String.length (" seconds" ++ newline)) with 9%nat.
  replace (6 + (String.length v + 9) - 15)%nat with (String.length v) by lia.
  change (substring 6 (String.length v) ("Time: " ++ v ++ " seconds" ++ newline))
    with (substring 0 (String.length v) (v ++ " seconds" ++ newline)).
  apply substring_append.
Qed.

Lemma is_time_line_two_decimals (v : string) :
  two_decimal_places v = true ->
  is_time_line ("Time: " ++ v ++ " seconds" ++ newline) = true.
Proof.
  intros H. unfold is_time_line. rewrite time_value_line, String.eqb_refl.
  exact H.
Qed.

End StdioFacts.

(** ** The two programs and the integer algorithm *)

Module ProgramFacts.

Import DoubleFacts RefFacts StdioFacts.

(** Goals that place a number in the range of [int] or [long long]. *)
Ltac in_range :=
  unfold is_int, is_llong, INT_MIN, INT_MAX, LLONG_MIN, LLONG_MAX in *; lia.

(** Nothing wraps around inside the range. *)
Lemma wrap_int_small (z : Z) : is_int z -> wrap_int z = z.
Proof.
  unfold wrap_int. intros H. rewrite Z.mod_small; in_range.
Qed.

Lemma wrap_llong_small (z : Z) : is_llong z -> wrap_llong z = z.
Proof.
  unfold wrap_llong. intros H. rewrite Z.mod_small; in_range.
Qed.

(** The C loop is the C++ loop with [int] 0 and 1 for [false] and
    [true]. *)
Lemma c_loop_cpp_loop (fuel : nat) (n i : Z) :
  C.is_prime_loop fuel n i = option_map Z.b2z (Cpp.is_prime_loop fuel n i).
Proof.
  revert i. induction fuel as [|fuel IH]; intros i; [reflexivity|].
  cbn [C.is_prime_loop Cpp.is_prime_loop].
  destruct (double_le _ _); [|reflexivity].
  destruct (int_rem n i =? 0); [reflexivity | apply IH].
Qed.

Lemma c_is_prime_cpp (fuel : nat) (n : Z) :
  C.is_prime fuel n = option_map Z.b2z (Cpp.is_prime fuel n).
Proof.
  unfold C.is_prime, Cpp.is_prime.
  destruct (n <=? 1); [reflexivity | apply c_loop_cpp_loop].
Qed.

Lemma c_main_step_cpp (fuel : nat) (s : loop_state) :
  C.main_step fuel s = Cpp.main_step fuel s.
Proof.
  unfold C.main_step, Cpp.main_step. rewrite c_is_prime_cpp.
  destruct (Cpp.is_prime fuel (st_i s)) as [[|]|]; reflexivity.
Qed.

Lemma c_main_loop_cpp (fuel : nat) (s : loop_state) :
  C.main_loop fuel s = Cpp.main_loop fuel s.
Proof.
  revert s. induction fuel as [|fuel IH]; intros s; [reflexivity|].
  cbn [C.main_loop Cpp.main_loop]. rewrite c_main_step_cpp.
  destruct (st_i s <? 1000000); [|reflexivity].
  destruct (Cpp.main_step fuel s); [apply IH | reflexivity].
Qed.

Lemma c_main_iter_cpp (fuel k : nat) (s : loop_state) :
  C.main_iter fuel k s = Cpp.main_iter fuel k s.
Proof.
  revert s. induction k as [|k IH]; intros s; [reflexivity|].
  cbn [C.main_iter Cpp.main_iter]. rewrite c_main_step_cpp.
  destruct (st_i s <? 1000000); [|reflexivity].
  destruct (Cpp.main_step fuel s); [apply IH | reflexivity].
Qed.

(** On a positive [int], the floating-point loop computes what the
    integer loop computes, and returns as soon as the fuel exceeds the
    number of candidates left below the square root. *)
Lemma cpp_loop_trial (fuel : nat) (n i : Z) :
  1 < n <= INT_MAX -> 2 <= i -> (i - 1) * (i - 1) <= n ->
  Z.sqrt n + 1 - i < Z.of_nat fuel ->
  Cpp.is_prime_loop fuel n i = Some (Ref.trial fuel n i).
Proof.
  intros Hn. revert i. induction fuel as [|fuel IH]; intros i Hi Hsq Hf.
  - exfalso. assert (i - 1 <= Z.sqrt n) by (apply Z.sqrt_le_square; lia). lia.
  - cbn [Cpp.is_prime_loop Ref.trial].
    assert (Hmax : i <= 46341).
    { unfold INT_MAX in Hn. destruct (Z_le_gt_dec i 46341); [assumption|].
      exfalso. assert (46341 * 46341 <= (i - 1) * (i - 1)); nia. }
    rewrite sqrt_guard by in_range.
    destruct (Z.leb_spec (i * i) n) as [L | G]; [|reflexivity].
    unfold int_rem. rewrite Z.rem_mod_nonneg by lia.
    destruct (n mod i =? 0); [reflexivity|].
    unfold int_incr. rewrite wrap_int_small by in_range.
    apply IH; lia.
Qed.
Lemma cpp_is_prime_trial (fuel : nat) (n : Z) :
  1 < n <= INT_MAX -> Z.sqrt n <= Z.of_nat fuel ->
  Cpp.is_prime fuel n = Some (Ref.trial fuel n 2).
Proof.
  intros Hn Hf. unfold Cpp.is_prime.
  destruct (Z.leb_spec n 1); [lia|].
  apply cpp_loop_trial; lia.
Qed.

Lemma sqrt_below_million (n : Z) : 0 <= n < 1000000 -> Z.sqrt n < 1000.
Proof. intros H. apply Z.sqrt_lt_square; lia. Qed.

(** One iteration, under the invariant: neither [i++] nor [sum += i]
    wraps around, and the candidate is accepted when [Ref.trial] accepts
    it. *)
Lemma cpp_main_step (fuel : nat) (s : loop_state) :
  loop_inv s -> st_i s < 1000000 -> (1000 <= fuel)%nat ->
  Cpp.main_step fuel s =
    Some {| st_i := st_i s + 1;
            st_sum := if Ref.trial 1000 (st_i s) 2
                      then st_sum s + st_i s else st_sum s |}.
Proof.
  intros [Hi Hs] Hlt Hf. unfold Cpp.main_step.
  pose proof (sqrt_below_million (st_i s) ltac:(lia)) as Hsq.
  rewrite cpp_is_prime_trial by in_range.
  rewrite (trial_fuel fuel 1000 (st_i s) 2) by lia.
  unfold int_incr, llong_add.
  rewrite wrap_int_small, wrap_llong_small by in_range.
  reflexivity.
Qed.

Lemma loop_inv_step (s : loop_state) :
  loop_inv s -> st_i s < 1000000 ->
  loop_inv {| st_i := st_i s + 1;
              st_sum := if Ref.trial 1000 (st_i s) 2
                        then st_sum s + st_i s else st_sum s |}.
Proof.
  intros [Hi Hs] Hlt. unfold loop_inv. cbn [st_i st_sum].
  destruct (Ref.trial 1000 (st_i s) 2); lia.
Qed.

Lemma sum_from_S (fuel k : nat) (i acc : Z) :
  Ref.sum_from fuel (S k) i acc =
    Ref.sum_from fuel k (i + 1) (if Ref.trial fuel i 2 then acc + i else acc).
Proof. reflexivity. Qed.

Lemma cpp_main_iter_S (fuel k : nat) (s : loop_state) :
  Cpp.main_iter fuel (S k) s =
    if st_i s <? 1000000 then
      match Cpp.main_step fuel s with
      | None => None
      | Some s' => Cpp.main_iter fuel k s'
      end
    else None.
Proof. reflexivity. Qed.

Lemma cpp_main_loop_S (fuel : nat) (s : loop_state) :
  Cpp.main_loop (S fuel) s =
    if st_i s <? 1000000 then
      match Cpp.main_step fuel s with
      | None => None
      | Some s' => Cpp.main_loop fuel s'
      end
    else Some s.
Proof. reflexivity. Qed.

(** [k] iterations from a state under the invariant. *)
Lemma cpp_main_iter (fuel k : nat) (s : loop_state) :
  loop_inv s -> st_i s + Z.of_nat k <= 1000000 -> (1000 <= fuel)%nat ->
  Cpp.main_iter fuel k s =
    Some {| st_i := st_i s + Z.of_nat k;
            st_sum := Ref.sum_from 1000 k (st_i s) (st_sum s) |} /\
  loop_inv {| st_i := st_i s + Z.of_nat k;
              st_sum := Ref.sum_from 1000 k (st_i s) (st_sum s) |}.
Proof.
  revert s. induction k as [|k IH]; intros s Hinv Hk Hf.
  - cbn [Cpp.main_iter Ref.sum_from Z.of_nat]. rewrite Z.add_0_r.
    destruct s; auto.
  - rewrite cpp_main_iter_S, sum_from_S.
    destruct (Z.ltb_spec (st_i s) 1000000) as [L | G]; [|lia].
    rewrite cpp_main_step by assumption.
    pose proof (loop_inv_step s Hinv L) as Hinv'.
    destruct (IH _ Hinv' ltac:(cbn [st_i]; lia) Hf) as [E I].
    cbn [st_i st_sum] in E, I.
    replace (st_i s + Z.of_nat (S k)) with (st_i s + 1 + Z.of_nat k) by lia.
    split; [exact E | exact I].
Qed.

(** The loop run to its exit, [k] candidates away. *)
Lemma cpp_main_loop (fuel k : nat) (s : loop_state) :
  loop_inv s -> st_i s + Z.of_nat k = 1000000 -> (k + 1000 < fuel)%nat ->
  Cpp.main_loop fuel s =
    Some {| st_i := 1000000;
            st_sum := Ref.sum_from 1000 k (st_i s) (st_sum s) |}.
Proof.
  revert fuel s. induction k as [|k IH]; intros fuel s Hinv Hk Hf.
  - destruct fuel as [|fuel]; [lia|]. rewrite cpp_main_loop_S.
    cbn [Ref.sum_from].
    destruct (Z.ltb_spec (st_i s) 1000000) as [L | G]; [lia|].
    destruct s as [i sum]. cbn [st_i st_sum] in *. f_equal. f_equal. lia.
  - destruct fuel as [|fuel]; [lia|]. rewrite cpp_main_loop_S, sum_from_S.
    destruct (Z.ltb_spec (st_i s) 1000000) as [L | G]; [|lia].
    rewrite cpp_main_step by (assumption || lia).
    rewrite (IH fuel); [reflexivity | | cbn [st_i]; lia | lia].
    apply loop_inv_step; assumption.
Qed.

(** The run of the loop passes through the states of [main_iter]. *)
Lemma cpp_main_loop_through (fuel k : nat) (s s' : loop_state) :
  loop_inv s -> st_i s + Z.of_nat k <= 1000000 -> (1000 <= fuel)%nat ->
  Cpp.main_iter fuel k s = Some s' ->
  Cpp.main_loop (k + S fuel) s = Cpp.main_loop (S fuel) s'.
Proof.
  revert s. induction k as [|k IH]; intros s Hinv Hk Hf E.
  - cbn [Cpp.main_iter] in E. injection E as <-. reflexivity.
  - rewrite cpp_main_iter_S in E. cbn [Nat.add]. rewrite cpp_main_loop_S.
    destruct (Z.ltb_spec (st_i s) 1000000) as [L | G]; [|lia].
    rewrite cpp_main_step in E |- * by (assumption || lia).
    apply IH; [apply loop_inv_step; assumption | cbn [st_i]; lia | | ];
      assumption.
Qed.

Lemma loop_inv_init : loop_inv loop_init.
Proof. unfold loop_inv, loop_init. cbn [st_i st_sum]. lia. Qed.

(** The sum, evaluated on machine integers. *)
Lemma fast_total :
  Fast.sum_from 1000 candidates 2 0 = 37550402023%uint63.
Proof. vm_compute. reflexivity. Qed.

Lemma ref_total : Ref.sum_from 1000 candidates 2 0 = 37550402023.
Proof.
  change 2 with (φ 2)%uint63 at 1. change 0 with (φ 0)%uint63.
  rewrite <- fast_sum_from.
  - rewrite fast_total. reflexivity.
  - change (φ 2)%uint63 with 2. lia.
  - change (φ 2)%uint63 with 2. unfold candidates. rewrite Z2Nat.id; lia.
  - change (φ 0)%uint63 with 0. unfold candidates. rewrite Z2Nat.id; lia.
Qed.

(** The last of [S k] iterations adds the candidate [i + k] or nothing,
    so the sum does not decrease with the number of iterations. *)
Lemma sum_from_snoc (fuel k : nat) (i acc : Z) :
  Ref.sum_from fuel (S k) i acc =
    if Ref.trial fuel (i + Z.of_nat k) 2
    then Ref.sum_from fuel k i acc + (i + Z.of_nat k)
    else Ref.sum_from fuel k i acc.
Proof.
  revert i acc. induction k as [|k IH]; intros i acc.
  - cbn [Ref.sum_from]. rewrite Z.add_0_r. reflexivity.
  - change (Ref.sum_from fuel (S (S k)) i acc)
      with (Ref.sum_from fuel (S k) (i + 1)
              (if Ref.trial fuel i 2 then acc + i else acc)).
    rewrite IH. cbn [Ref.sum_from].
    replace (i + 1 + Z.of_nat k) with (i + Z.of_nat (S k)) by lia.
    reflexivity.
Qed.

Lemma sum_from_mono (fuel k k' : nat) (i acc : Z) :
  0 <= i -> (k <= k')%nat ->
  Ref.sum_from fuel k i acc <= Ref.sum_from fuel k' i acc.
Proof.
  intros Hi Hk. induction Hk as [|k' Hk IH]; [lia|].
  rewrite sum_from_snoc.
  destruct (Ref.trial fuel (i + Z.of_nat k') 2); lia.
Qed.

(** The state of either program after [k] iterations of the summation
    loop. *)
Lemma main_iter_init (fuel k : nat) :
  (1000 <= fuel)%nat -> (k <= candidates)%nat ->
  let s := {| st_i := 2 + Z.of_nat k;
              st_sum := Ref.sum_from 1000 k 2 0 |} in
  C.main_iter fuel k loop_init = Some s /\
  Cpp.main_iter fuel k loop_init = Some s /\
  C.main_loop (k + S fuel) loop_init = C.main_loop (S fuel) s /\
  Cpp.main_loop (k + S fuel) loop_init = Cpp.main_loop (S fuel) s /\
  loop_inv s /\
  0 <= st_sum s <= 37550402023.
Proof.
  intros Hf Hk s.
  assert (Hk' : st_i loop_init + Z.of_nat k <= 1000000)
    by (unfold candidates in Hk; cbn [loop_init st_i]; lia).
  destruct (cpp_main_iter fuel k loop_init loop_inv_init Hk' Hf) as [E I].
  pose proof (cpp_main_loop_through fuel k _ _ loop_inv_init Hk' Hf E) as T.
  cbn [loop_init st_i st_sum] in E, I, T. fold loop_init in E, T.
  rewrite c_main_iter_cpp, !c_main_loop_cpp.
  repeat split; try assumption; try apply I.
  - subst s. cbn [st_sum]. rewrite <- ref_total.
    apply sum_from_mono; [lia | exact Hk].
Qed.

(** The final sum of both programs. *)
Lemma main_sum_total (fuel : nat) :
  1000999 <= Z.of_nat fuel ->
  C.main_sum fuel = Some 37550402023 /\ Cpp.main_sum fuel = Some 37550402023.
Proof.
  intros Hf. unfold C.main_sum, Cpp.main_sum. rewrite c_main_loop_cpp.
  rewrite (cpp_main_loop fuel candidates loop_init loop_inv_init).
  - cbn [option_map st_sum loop_init st_i]. rewrite ref_total. auto.
  - unfold candidates. cbn [loop_init st_i]. rewrite Z2Nat.id; lia.
  - unfold candidates. lia.
Qed.

(** The state of the summation loop when it reaches the candidate [n], and
    what one more iteration does to it. *)
Lemma main_step_at (fuel : nat) (n : Z) :
  (1000 <= fuel)%nat -> 2 <= n < 1000000 ->
  exists s : loop_state,
    C.main_iter fuel (Z.to_nat (n - 2)) loop_init = Some s /\
    Cpp.main_iter fuel (Z.to_nat (n - 2)) loop_init = Some s /\
    C.main_loop (Z.to_nat (n - 2) + S fuel) loop_init =
      C.main_loop (S fuel) s /\
    Cpp.main_loop (Z.to_nat (n - 2) + S fuel) loop_init =
      Cpp.main_loop (S fuel) s /\
    st_i s = n /\ 0 <= st_sum s <= 37550402023 /\
    C.main_step fuel s = Cpp.main_step fuel s /\
    Cpp.main_step fuel s =
      Some {| st_i := n + 1;
              st_sum := if Ref.trial 1000 n 2
                        then st_sum s + n else st_sum s |}.
Proof.
  intros Hf Hn.
  destruct (main_iter_init fuel (Z.to_nat (n - 2)) Hf)
    as (Hc & Hcpp & Tc & Tcpp & Hinv & Hb); [unfold candidates; lia|].
  rewrite Z2Nat.id in * by lia. replace (2 + (n - 2)) with n in * by lia.
  eexists. split; [exact Hc|]. split; [exact Hcpp|].
  split; [exact Tc|]. split; [exact Tcpp|].
  cbn [st_i st_sum] in *. split; [reflexivity|]. split; [exact Hb|].
  split; [apply c_main_step_cpp|].
  rewrite cpp_main_step; [reflexivity | exact Hinv | cbn [st_i]; lia | assumption].
Qed.

Lemma wrap_llong_range (z : Z) : - 2 ^ 63 <= wrap_llong z < 2 ^ 63.
Proof.
  unfold wrap_llong. pose proof (Z.mod_pos_bound (z + 2 ^ 63) (2 ^ 64)). lia.
Qed.

(** The elapsed time of the C program is a zero or a finite double,
    whatever the clock returns. *)
Lemma c_elapsed_bounded (t0 t1 : Z) : bounded_double 46 (C.elapsed t0 t1).
Proof.
  unfold C.elapsed.
  change (double_of_Z CLOCKS_PER_SEC)
    with (S754_finite false 8589934592000000 (-33)).
  apply double_div_bounded; [|lia].
  apply double_of_Z_bounded. pose proof (wrap_llong_range (t1 - t0)). lia.
Qed.

Lemma c_time_line_two_decimals (t0 t1 : Z) :
  is_time_line (C.time_line t0 t1) = true.
Proof.
  apply is_time_line_two_decimals.
  apply (two_decimal_places_format_f _ 46). apply c_elapsed_bounded.
Qed.

(** Iterations of the summation compose. *)
Lemma sum_from_app (fuel k j : nat) (i acc : Z) :
  Ref.sum_from fuel (k + j) i acc =
    Ref.sum_from fuel j (i + Z.of_nat k) (Ref.sum_from fuel k i acc).
Proof.
  revert i acc. induction k as [|k IH]; intros i acc.
  - cbn [Nat.add Ref.sum_from Z.of_nat]. rewrite Z.add_0_r. reflexivity.
  - cbn [Nat.add]. rewrite !sum_from_S, IH. f_equal. lia.
Qed.

(** From 999983 on: the first candidate is accepted and none of the
    sixteen that follow, 999999 the last of them. *)
Lemma sum_from_999983 (acc : Z) :
  Ref.sum_from 1000 16 999983 acc = acc + 999983 /\
  Ref.sum_from 1000 17 999983 acc = acc + 999983 /\
  Ref.sum_from 1000 1 999999 acc = acc.
Proof. repeat split; vm_compute; reflexivity. Qed.

(** The accumulator when the loop reaches 999983 and when it reaches
    999999. *)
Lemma sum_before_999983 :
  Ref.sum_from 1000 (Z.to_nat 999981) 2 0 = 37549402040 /\
  Ref.sum_from 1000 (Z.to_nat 999997) 2 0 = 37550402023.
Proof.
  pose proof ref_total as T.
  replace candidates with (Z.to_nat 999981 + 17)%nat in T
    by (unfold candidates; lia).
  rewrite sum_from_app in T.
  replace (Z.to_nat 999997) with (Z.to_nat 999981 + 16)%nat by lia.
  rewrite sum_from_app.
  rewrite Z2Nat.id in * by lia. change (2 + 999981) with 999983 in *.
  destruct (sum_from_999983 (Ref.sum_from 1000 (Z.to_nat 999981) 2 0))
    as (E16 & E17 & _).
  rewrite E17 in T. rewrite E16. lia.
Qed.

(** The states in which the loop reaches the candidates 999983 and
    999999, and the run of the loop from each of them. *)
Lemma main_loop_boundary (fuel loop_fuel : nat) :
  (1000 <= fuel)%nat -> 1000999 <= Z.of_nat loop_fuel ->
  let s := {| st_i := 999983; st_sum := 37549402040 |} in
  let s' := {| st_i := 999999; st_sum := 37550402023 |} in
  let final := {| st_i := 1000000; st_sum := 37550402023 |} in
  (Cpp.main_iter fuel (Z.to_nat 999981) loop_init = Some s /\
   Cpp.main_step fuel s =
     Some {| st_i := 999984; st_sum := 37549402040 + 999983 |} /\
   Cpp.main_loop (loop_fuel - Z.to_nat 999981) s = Some final) /\
  (Cpp.main_iter fuel (Z.to_nat 999997) loop_init = Some s' /\
   Cpp.main_step fuel s' = Some final /\
   Cpp.main_loop (loop_fuel - Z.to_nat 999997) s' = Some final) /\
  Cpp.main_loop loop_fuel loop_init = Some final.
Proof.
  intros Hf Hl s s' final.
  destruct sum_before_999983 as [A A'].
  assert (T1 : Ref.trial 1000 999999 2 = false) by (vm_compute; reflexivity).
  assert (T2 : Ref.trial 1000 999983 2 = true) by (vm_compute; reflexivity).
  destruct (main_iter_init fuel (Z.to_nat 999981) Hf)
    as (_ & I1 & _ & _ & V1 & _); [unfold candidates; lia|].
  destruct (main_iter_init fuel (Z.to_nat 999997) Hf)
    as (_ & I2 & _ & _ & V2 & _); [unfold candidates; lia|].
  rewrite Z2Nat.id in I1, I2, V1, V2 by lia.
  rewrite A in I1, V1. rewrite A' in I2, V2.
  change (2 + 999981) with 999983 in I1, V1.
  change (2 + 999997) with 999999 in I2, V2.
  fold s in I1, V1. fold s' in I2, V2.
  repeat split.
  - exact I1.
  - rewrite cpp_main_step by (assumption || (cbn [s st_i]; lia)).
    cbn [s st_i st_sum]. rewrite T2. reflexivity.
  - rewrite (cpp_main_loop _ 17 s V1) by (cbn [s st_i]; lia).
    cbn [s st_i st_sum].
    destruct (sum_from_999983 37549402040) as (_ & -> & _). reflexivity.
  - exact I2.
  - rewrite cpp_main_step by (assumption || (cbn [s' st_i]; lia)).
    cbn [s' st_i st_sum]. rewrite T1. reflexivity.
  - rewrite (cpp_main_loop _ 1 s' V2) by (cbn [s' st_i]; lia).
    cbn [s' st_i st_sum].
    destruct (sum_from_999983 37550402023) as (_ & _ & ->). reflexivity.
  - rewrite (cpp_main_loop loop_fuel candidates loop_init loop_inv_init).
    + cbn [loop_init st_i st_sum]. rewrite ref_total. reflexivity.
    + unfold candidates. cbn [loop_init st_i]. rewrite Z2Nat.id; lia.
    + unfold candidates. lia.
Qed.

End ProgramFacts.

(** ** The properties of the programs *)

Import DoubleFacts RefFacts ProgramFacts.

(** C1: with enough fuel to run the loops to their end, the summation
    driver of either program, iterating [i] from 2 to 999999 and adding
    every [i] that [is_prime] accepts, ends with [sum = 37550402023], and
    [main] prints [Sum: 37550402023] as its first line. *)
Theorem main_sum_37550402023 (fuel : nat) :
  1000999 <= Z.of_nat fuel ->
  C.main_sum fuel = Some 37550402023 /\
  Cpp.main_sum fuel = Some 37550402023 /\
  (forall t0 t1,
      C.main fuel t0 t1 =
        Some ("Sum: 37550402023" ++ newline ++ C.time_line t0 t1)%string /\
      Cpp.main fuel t0 t1 =
        Some ("Sum: 37550402023" ++ newline ++ Cpp.time_line t0 t1)%string).
Proof.
  intros Hf. destruct (main_sum_total fuel Hf) as [Hc Hcpp].
  repeat split; try assumption.
  - unfold C.main. rewrite Hc. reflexivity.
  - unfold Cpp.main. rewrite Hcpp. reflexivity.
Qed.

Lemma main_sum_37550402023_witness :
  C.main_sum (Z.to_nat 1000999) = Some 37550402023 /\
  Cpp.main_sum (Z.to_nat 1000999) = Some 37550402023.
Proof.
  destruct (main_sum_37550402023 (Z.to_nat 1000999)) as (Hc & Hcpp & _).
  - rewrite Z2Nat.id; lia.
  - split; assumption.
Defined.

(** C2: for every [int] [n > 1], [is_prime] returns, and it returns true
    (1 in C) exactly when no [i] with [2 <= i <= floor(sqrt(n))] divides
    [n], which is when [n] is prime. *)
Theorem is_prime_iff_no_divisor (fuel : nat) (n : Z) :
  1 < n <= INT_MAX -> Z.sqrt n <= Z.of_nat fuel ->
  exists b : bool,
    Cpp.is_prime fuel n = Some b /\
    C.is_prime fuel n = Some (Z.b2z b) /\
    (b = true <-> forall i, 2 <= i <= Z.sqrt n -> ~ (i | n)) /\
    (b = true <-> prime n).
Proof.
  intros Hn Hf. exists (Ref.trial fuel n 2).
  rewrite c_is_prime_cpp, cpp_is_prime_trial by assumption.
  split; [reflexivity|]. split; [reflexivity|].
  assert (T : Ref.trial fuel n 2 = true <->
              forall i, 2 <= i <= Z.sqrt n -> ~ (i | n)).
  { rewrite trial_spec by lia.
    split; intros H i Hi.
    - intros D. apply (H i Hi). apply Z.mod_divide; [lia | exact D].
    - intros E. apply (H i Hi). apply Z.mod_divide; [lia | exact E]. }
  split; [exact T|].
  rewrite prime_iff_no_divisor by lia. exact T.
Qed.

Lemma is_prime_iff_no_divisor_witness :
  exists b : bool,
    Cpp.is_prime 9 91 = Some b /\
    C.is_prime 9 91 = Some (Z.b2z b) /\
    (b = true <-> forall i, 2 <= i <= Z.sqrt 91 -> ~ (i | 91)) /\
    (b = true <-> prime 91).
Proof.
  apply (is_prime_iff_no_divisor 9 91).
  - unfold INT_MAX. lia.
  - vm_compute. discriminate.
Defined.

(** C3: for every integer [n <= 1], negative ones, 0 and 1 included,
    [is_prime] returns false (0 in C), whatever the fuel. *)
Theorem is_prime_le_1 (fuel : nat) (n : Z) :
  n <= 1 -> C.is_prime fuel n = Some 0 /\ Cpp.is_prime fuel n = Some false.
Proof.
  intros Hn. unfold C.is_prime, Cpp.is_prime.
  destruct (Z.leb_spec n 1); [auto | lia].
Qed.

Lemma is_prime_le_1_witness :
  - 7 <= 1 /\ C.is_prime 0 (- 7) = Some 0 /\ Cpp.is_prime 0 (- 7) = Some false.
Proof.
  split; [lia | apply (is_prime_le_1 0 (- 7)); lia].
Defined.

(** C4: [is_prime(961)] returns false (0 in C): the double-precision
    [sqrt(961)] is exactly 31, so the loop reaches the divisor 31. *)
Theorem is_prime_961 (fuel : nat) :
  (31 <= fuel)%nat ->
  sqrt (double_of_Z 961) = double_of_Z 31 /\
  C.is_prime fuel 961 = Some 0 /\ Cpp.is_prime fuel 961 = Some false.
Proof.
  intros Hf. split; [vm_compute; reflexivity|].
  rewrite c_is_prime_cpp.
  rewrite cpp_is_prime_trial
    by (unfold INT_MAX; change (Z.sqrt 961) with 31; lia).
  rewrite (trial_fuel fuel 31 961 2) by (change (Z.sqrt 961) with 31; lia).
  split; reflexivity.
Qed.

Lemma is_prime_961_witness :
  C.is_prime 31 961 = Some 0 /\ Cpp.is_prime 31 961 = Some false.
Proof.
  apply (is_prime_961 31). lia.
Defined.

(** C5: in the summation over [2, 1000000) the candidate 999999 is
    rejected and leaves the sum as it is, and the candidate 999983 is
    reached, accepted and added to the sum: the loop of [main] reaches
    999983 with [sum = 37549402040], adds 999983, reaches 999999 with
    [sum = 37550402023] and exits with that sum, which [main] prints. *)
Theorem boundary_candidates (fuel loop_fuel : nat) :
  (1000 <= fuel)%nat -> 1000999 <= Z.of_nat loop_fuel ->
  (C.is_prime fuel 999999 = Some 0 /\ Cpp.is_prime fuel 999999 = Some false) /\
  (C.is_prime fuel 999983 = Some 1 /\ Cpp.is_prime fuel 999983 = Some true) /\
  exists s s' : loop_state,
    (C.main_iter fuel (Z.to_nat 999981) loop_init = Some s /\
     Cpp.main_iter fuel (Z.to_nat 999981) loop_init = Some s /\
     st_i s = 999983 /\
     C.main_step fuel s =
       Some {| st_i := 999984; st_sum := st_sum s + 999983 |} /\
     Cpp.main_step fuel s =
       Some {| st_i := 999984; st_sum := st_sum s + 999983 |}) /\
    (C.main_iter fuel (Z.to_nat 999997) loop_init = Some s' /\
     Cpp.main_iter fuel (Z.to_nat 999997) loop_init = Some s' /\
     st_i s' = 999999 /\
     C.main_step fuel s' = Some {| st_i := 1000000; st_sum := st_sum s' |} /\
     Cpp.main_step fuel s' = Some {| st_i := 1000000; st_sum := st_sum s' |}) /\
    (C.main_loop loop_fuel loop_init =
       Some {| st_i := 1000000; st_sum := st_sum s + 999983 |} /\
     Cpp.main_loop loop_fuel loop_init =
       Some {| st_i := 1000000; st_sum := st_sum s + 999983 |} /\
     C.main_loop (loop_fuel - Z.to_nat 999981) s =
       Some {| st_i := 1000000; st_sum := st_sum s + 999983 |} /\
     Cpp.main_loop (loop_fuel - Z.to_nat 999981) s =
       Some {| st_i := 1000000; st_sum := st_sum s + 999983 |} /\
     C.main_loop (loop_fuel - Z.to_nat 999997) s' =
       Some {| st_i := 1000000; st_sum := st_sum s' |} /\
     Cpp.main_loop (loop_fuel - Z.to_nat 999997) s' =
       Some {| st_i := 1000000; st_sum := st_sum s' |} /\
     C.main_sum loop_fuel = Some (st_sum s + 999983) /\
     Cpp.main_sum loop_fuel = Some (st_sum s + 999983) /\
     st_sum s = 37549402040 /\
     st_sum s' = st_sum s + 999983).
Proof.
  intros Hf Hl.
  assert (T1 : Ref.trial 1000 999999 2 = false) by (vm_compute; reflexivity).
  assert (T2 : Ref.trial 1000 999983 2 = true) by (vm_compute; reflexivity).
  assert (P : forall n, 2 <= n < 1000000 ->
                Cpp.is_prime fuel n = Some (Ref.trial 1000 n 2)).
  { intros n Hn. pose proof (sqrt_below_million n ltac:(lia)).
    rewrite cpp_is_prime_trial by (unfold INT_MAX; lia).
    rewrite (trial_fuel fuel 1000 n 2) by lia. reflexivity. }
  split; [|split].
  - rewrite c_is_prime_cpp, P, T1 by lia. auto.
  - rewrite c_is_prime_cpp, P, T2 by lia. auto.
  - destruct (main_loop_boundary fuel loop_fuel Hf Hl)
      as ((I & S & L) & (I' & S' & L') & F).
    change (37549402040 + 999983) with 37550402023 in S.
    exists {| st_i := 999983; st_sum := 37549402040 |},
           {| st_i := 999999; st_sum := 37550402023 |}.
    unfold C.main_sum, Cpp.main_sum.
    rewrite !c_main_iter_cpp, !c_main_step_cpp, !c_main_loop_cpp.
    cbn [st_i st_sum].
    change (37549402040 + 999983) with 37550402023.
    rewrite I, S, L, I', S', L', F. cbn [option_map st_sum].
    repeat split.
Qed.

Lemma boundary_candidates_witness :
  C.is_prime 1000 999999 = Some 0 /\ C.is_prime 1000 999983 = Some 1 /\
  exists s : loop_state,
    C.main_iter 1000 (Z.to_nat 999981) loop_init = Some s /\
    C.main_step 1000 s =
      Some {| st_i := 999984; st_sum := st_sum s + 999983 |} /\
    C.main_loop (Z.to_nat 1000999) loop_init =
      Some {| st_i := 1000000; st_sum := st_sum s + 999983 |} /\
    C.main_sum (Z.to_nat 1000999) = Some (st_sum s + 999983).
Proof.
  destruct (boundary_candidates 1000 (Z.to_nat 1000999))
    as ((H1 & _) & (H2 & _) & s & s' & (I & _ & _ & S & _) & _ &
        (L & _ & _ & _ & _ & _ & M & _)).
  - lia.
  - rewrite Z2Nat.id; lia.
  - split; [exact H1|]. split; [exact H2|].
    exists s. split; [exact I|]. split; [exact S|]. split; [exact L | exact M].
Defined.

(** C7: the accumulator never decreases: after every number [k] of
    iterations of the summation loop that leaves an iteration to run, both
    programs are in one state [s], the next iteration leads both to one
    state [s'], and [sum] in [s'] is at least [sum] in [s], which is at
    least the initial 0. *)
Theorem sum_non_decreasing (fuel k : nat) :
  (1000 <= fuel)%nat -> Z.of_nat k < 999998 ->
  exists s s' : loop_state,
    C.main_iter fuel k loop_init = Some s /\
    Cpp.main_iter fuel k loop_init = Some s /\
    C.main_loop (k + S fuel) loop_init = C.main_loop (S fuel) s /\
    Cpp.main_loop (k + S fuel) loop_init = Cpp.main_loop (S fuel) s /\
    st_i s = 2 + Z.of_nat k /\
    C.main_step fuel s = Some s' /\
    Cpp.main_step fuel s = Some s' /\
    st_sum loop_init = 0 /\
    0 <= st_sum s <= st_sum s'.
Proof.
  intros Hf Hk.
  destruct (main_step_at fuel (2 + Z.of_nat k) Hf ltac:(lia))
    as (s & Hc & Hcpp & Tc & Tcpp & Hi & Hb & E & Hs).
  replace (Z.to_nat (2 + Z.of_nat k - 2)) with k in * by lia.
  eexists s, _. split; [exact Hc|]. split; [exact Hcpp|].
  split; [exact Tc|]. split; [exact Tcpp|].
  split; [exact Hi|]. split; [rewrite E; exact Hs|]. split; [exact Hs|].
  split; [reflexivity|]. cbn [st_sum].
  destruct (Ref.trial 1000 (2 + Z.of_nat k) 2); lia.
Qed.

Lemma sum_non_decreasing_witness :
  exists s s' : loop_state,
    C.main_iter 1000 3 loop_init = Some s /\
    Cpp.main_iter 1000 3 loop_init = Some s /\
    C.main_loop (3 + 1001) loop_init = C.main_loop 1001 s /\
    Cpp.main_loop (3 + 1001) loop_init = Cpp.main_loop 1001 s /\
    st_i s = 2 + Z.of_nat 3 /\
    C.main_step 1000 s = Some s' /\
    Cpp.main_step 1000 s = Some s' /\
    st_sum loop_init = 0 /\
    0 <= st_sum s <= st_sum s'.
Proof.
  apply (sum_non_decreasing 1000 3); lia.
Defined.

(** C9: no addition of the summation loop overflows a 64-bit signed
    integer: after every number [k] of iterations, up to the last, the
    accumulator lies between 0 and 37550402023, the sum that the next
    iteration may compute fits a [long long], and after the last
    iteration the accumulator is 37550402023, below 2^36. *)
Theorem sum_fits_long_long (fuel k : nat) :
  (1000 <= fuel)%nat -> Z.of_nat k <= 999998 ->
  exists s : loop_state,
    C.main_iter fuel k loop_init = Some s /\
    Cpp.main_iter fuel k loop_init = Some s /\
    C.main_loop (k + S fuel) loop_init = C.main_loop (S fuel) s /\
    Cpp.main_loop (k + S fuel) loop_init = Cpp.main_loop (S fuel) s /\
    0 <= st_sum s <= 37550402023 /\
    is_llong (st_sum s) /\
    is_llong (st_sum s + st_i s) /\
    llong_add (st_sum s) (st_i s) = st_sum s + st_i s /\
    (Z.of_nat k = 999998 -> st_sum s = 37550402023) /\
    37550402023 < 2 ^ 36.
Proof.
  intros Hf Hk.
  destruct (main_iter_init fuel k Hf) as (Hc & Hcpp & Tc & Tcpp & _ & Hb);
    [unfold candidates; lia|].
  eexists. split; [exact Hc|]. split; [exact Hcpp|].
  split; [exact Tc|]. split; [exact Tcpp|].
  cbn [st_i st_sum] in *.
  assert (L : is_llong (Ref.sum_from 1000 k 2 0 + (2 + Z.of_nat k)))
    by (unfold is_llong, LLONG_MIN, LLONG_MAX; lia).
  split; [exact Hb|].
  split; [unfold is_llong, LLONG_MIN, LLONG_MAX; lia|].
  split; [exact L|].
  split; [apply wrap_llong_small; exact L|].
  split; [|lia].
  intros E. replace k with candidates by (unfold candidates; lia).
  apply ref_total.
Qed.

Lemma sum_fits_long_long_witness :
  exists s : loop_state,
    C.main_iter 1000 candidates loop_init = Some s /\
    st_sum s = 37550402023.
Proof.
  destruct (sum_fits_long_long 1000 candidates)
    as (s & Hc & _ & _ & _ & _ & _ & _ & _ & E & _).
  - lia.
  - unfold candidates. lia.
  - exists s. split; [exact Hc|]. apply E. unfold candidates. lia.
Defined.

(** C10: [is_prime] terminates on every [int]: the loop is left after at
    most [floor(sqrt(n))] evaluations of its test, which is at most 46340,
    and any larger fuel gives the same result. *)
Theorem is_prime_terminates (n : Z) :
  is_int n ->
  Z.sqrt n <= 46340 /\
  exists b : bool,
    forall fuel : nat,
      Z.sqrt n <= Z.of_nat fuel ->
      Cpp.is_prime fuel n = Some b /\ C.is_prime fuel n = Some (Z.b2z b).
Proof.
  unfold is_int, INT_MIN, INT_MAX. intros Hn.
  assert (Hs : Z.sqrt n <= 46340).
  { destruct (Z_le_gt_dec n 0) as [L | G].
    - destruct (Z.eq_dec n 0) as [-> | N]; [cbn; lia|].
      rewrite Z.sqrt_neg by lia. lia.
    - assert (Z.sqrt n < 46341) by (apply Z.sqrt_lt_square; lia). lia. }
  split; [exact Hs|].
  destruct (Z_le_gt_dec n 1) as [L | G].
  - exists false. intros fuel _. unfold C.is_prime, Cpp.is_prime.
    destruct (Z.leb_spec n 1); [auto | lia].
  - exists (Ref.trial (Z.to_nat 46340) n 2). intros fuel Hf.
    rewrite c_is_prime_cpp, cpp_is_prime_trial by (unfold INT_MAX; lia).
    rewrite (trial_fuel fuel (Z.to_nat 46340) n 2) by lia. auto.
Qed.

Lemma is_prime_terminates_witness :
  exists b : bool,
    forall fuel : nat,
      Z.sqrt 2147483647 <= Z.of_nat fuel ->
      Cpp.is_prime fuel 2147483647 = Some b /\
      C.is_prime fuel 2147483647 = Some (Z.b2z b).
Proof.
  apply (is_prime_terminates 2147483647).
  unfold is_int, INT_MIN, INT_MAX. lia.
Defined.

(** C8: the two programs compute the same: on every integer and with
    every fuel [is_prime] of C returns 1 where [is_prime] of C++ returns
    true and 0 where it returns false, the summation loops lead from any
    state to the same state, the sums and the [Sum:] lines are the same,
    and both programs do reach the same final sum. *)
Theorem c_cpp_agree :
  (forall (fuel : nat) (n : Z),
      C.is_prime fuel n = option_map Z.b2z (Cpp.is_prime fuel n)) /\
  (forall (fuel : nat) (s : loop_state),
      C.main_loop fuel s = Cpp.main_loop fuel s) /\
  (forall fuel : nat, C.main_sum fuel = Cpp.main_sum fuel) /\
  (forall sum : Z, C.sum_line sum = Cpp.sum_line sum) /\
  (exists sum : Z,
      C.main_sum (Z.to_nat 1000999) = Some sum /\
      Cpp.main_sum (Z.to_nat 1000999) = Some sum).
Proof.
  split; [exact c_is_prime_cpp|].
  split; [exact c_main_loop_cpp|].
  split; [intros fuel; unfold C.main_sum, Cpp.main_sum;
          rewrite c_main_loop_cpp; reflexivity|].
  split; [reflexivity|].
  exists 37550402023. apply main_sum_total. rewrite Z2Nat.id; lia.
Qed.

(** C6: the second output line. Whatever the two readings of the clock
    are, the C program prints the elapsed time with exactly two decimal
    places. The C++ program does not: when half a second passes between
    the two readings it prints [Time: 0.5 seconds], where the C program
    prints [Time: 0.50 seconds]. *)
Theorem time_line_two_decimals_in_c_only :
  (forall t0 t1 : Z, is_time_line (C.time_line t0 t1) = true) /\
  C.time_line 0 500000 = ("Time: 0.50 seconds" ++ newline)%string /\
  Cpp.time_line 0 500000000 = ("Time: 0.5 seconds" ++ newline)%string /\
  is_time_line (Cpp.time_line 0 500000000) = false.
Proof.
  split; [exact c_time_line_two_decimals|].
  repeat split; vm_compute; reflexivity.
Qed.

(** ** Further properties of the programs *)

Import StdioFacts.

Module LoopFacts.

(** Two normalised doubles of one value are one double. *)
Lemma normal_unique (m1 m2 : positive) (e1 e2 : Z) :
  2 ^ 52 <= Zpos m1 < 2 ^ 53 -> 2 ^ 52 <= Zpos m2 < 2 ^ 53 ->
  -52 <= e1 -> -52 <= e2 ->
  Zpos m1 * 2 ^ (e1 + 52) = Zpos m2 * 2 ^ (e2 + 52) ->
  m1 = m2 /\ e1 = e2.
Proof.
  intros H1 H2 He1 He2 E.
  pose proof (double_le_normal m1 m2 e1 e2 H1 H2 He1 He2) as L12.
  pose proof (double_le_normal m2 m1 e2 e1 H2 H1 He2 He1) as L21.
  rewrite E, Z.leb_refl in L12. rewrite <- E, Z.leb_refl in L21.
  unfold double_le, SFleb, SFcompare in L12, L21.
  rewrite (Z.compare_antisym e1 e2) in L21.
  destruct (Z.compare_spec e1 e2) as [Ee | Lt | Gt]; cbn [CompOpp] in L21;
    try discriminate.
  split; [|exact Ee].
  fold (Pos.compare m1 m2) in L12. fold (Pos.compare m2 m1) in L21.
  rewrite (Pos.compare_antisym m1 m2) in L21.
  destruct (Pos.compare_spec m1 m2); cbn [CompOpp] in L21;
    try discriminate; assumption.
Qed.

(** The square root of a perfect square below 2^53 is exact. *)
Lemma sqrt_square (k : Z) :
  0 < k -> k * k < 2 ^ 53 ->
  sqrt (double_of_Z (k * k)) = double_of_Z k.
Proof.
  intros Hk Hkk.
  assert (Hk53 : k < 2 ^ 53) by nia.
  destruct (double_of_Z_normal k ltac:(lia)) as (mk & ek & -> & Hmk & _ & Hek & Emk).
  destruct (double_of_Z_normal (k * k) ltac:(nia)) as (mn & en & -> & Hmn & _ & Hen & Emn).
  destruct (sqrt_normal mn en Hmn Hen) as (mr & er & -> & Hmr & Her & Emr).
  assert (Hd : en - 1 <= 2 * Z.div2 en <= en)
    by (rewrite Z.div2_div; Z.div_mod_to_equations; lia).
  set (a := 26 - Z.div2 en) in *.
  assert (Ha : 26 <= a <= 52) by (unfold a; lia).
  assert (Ex : Zpos mn * 2 ^ (en + 2 * a) = k * 2 ^ a * (k * 2 ^ a)).
  { rewrite Emn.
    replace (k * k * 2 ^ (- en) * 2 ^ (en + 2 * a))
      with (k * k * (2 ^ (- en) * 2 ^ (en + 2 * a))) by ring.
    rewrite <- Z.pow_add_r by lia.
    replace (- en + (en + 2 * a)) with (a + a) by lia.
    rewrite Z.pow_add_r by lia. ring. }
  rewrite Ex in Emr.
  assert (HA : 0 < 2 ^ a) by (apply Z.pow_pos_nonneg; lia).
  rewrite Z.sqrt_square in Emr by nia.
  rewrite Z.sub_diag in Emr.
  rewrite (proj2 (Z.leb_le 0 (k * 2 ^ a))) in Emr by nia.
  assert (E : Zpos mr * 2 ^ (er + 52) = Zpos mk * 2 ^ (ek + 52)).
  { rewrite Emr, Emk, <- !Z.mul_assoc, <- !Z.pow_add_r by lia.
    f_equal. f_equal. lia. }
  destruct (normal_unique mr mk er ek Hmr Hmk Her ltac:(lia) E) as [-> ->].
  reflexivity.
Qed.

(** While the loop test holds and the candidate does not divide [n], the
    loop goes on: each such candidate costs one unit of fuel. *)
Lemma cpp_loop_skip (k fuel : nat) (n i : Z) :
  1 < n <= INT_MAX -> 2 <= i ->
  (forall j, i <= j < i + Z.of_nat k -> j * j <= n /\ n mod j <> 0) ->
  Cpp.is_prime_loop (k + fuel) n i =
    Cpp.is_prime_loop fuel n (i + Z.of_nat k).
Proof.
  intros Hn. revert i. induction k as [|k IH]; intros i Hi H.
  - cbn [Nat.add Z.of_nat]. rewrite Z.add_0_r. reflexivity.
  - destruct (H i ltac:(lia)) as [Hsq Hmod].
    assert (Hmax : i < 46341) by (unfold INT_MAX in Hn; nia).
    cbn [Nat.add Cpp.is_prime_loop].
    rewrite sqrt_guard by in_range.
    rewrite (proj2 (Z.leb_le _ _) Hsq).
    unfold int_rem. rewrite Z.rem_mod_nonneg by lia.
    rewrite (proj2 (Z.eqb_neq _ _) Hmod).
    unfold int_incr. rewrite wrap_int_small by in_range.
    rewrite IH; [f_equal; lia | lia |].
    intros j Hj. apply H. lia.
Qed.

(** Out of fuel before the loop has met a divisor or passed the square
    root. *)
Lemma cpp_loop_out_of_fuel (fuel : nat) (n i : Z) :
  1 < n <= INT_MAX -> 2 <= i ->
  (forall j, i <= j < i + Z.of_nat fuel -> j * j <= n /\ n mod j <> 0) ->
  Cpp.is_prime_loop fuel n i = None.
Proof.
  intros Hn Hi H.
  replace fuel with (fuel + 0)%nat by lia.
  rewrite cpp_loop_skip by assumption. reflexivity.
Qed.

(** What the loop returns where it stops. *)
Lemma cpp_loop_stop (fuel : nat) (n i : Z) :
  1 < n <= INT_MAX -> 2 <= i -> (i - 1) * (i - 1) <= n ->
  Cpp.is_prime_loop (S fuel) n i =
    if i * i <=? n then
      if n mod i =? 0 then Some false
      else Cpp.is_prime_loop fuel n (i + 1)
    else Some true.
Proof.
  intros Hn Hi Hsq.
  assert (Hmax : i <= 46341) by (unfold INT_MAX in Hn; nia).
  cbn [Cpp.is_prime_loop]. rewrite sqrt_guard by in_range.
  destruct (i * i <=? n); [|reflexivity].
  unfold int_rem. rewrite Z.rem_mod_nonneg by lia.
  destruct (n mod i =? 0); [reflexivity|].
  unfold int_incr. rewrite wrap_int_small by in_range. reflexivity.
Qed.

(** Below one million, [Ref.trial] with fuel 1000 decides primality. *)
Lemma trial_prime (i : Z) :
  2 <= i < 1000000 ->
  Ref.trial 1000 i 2 = if prime_dec i then true else false.
Proof.
  intros Hi. pose proof (sqrt_below_million i ltac:(lia)) as Hs.
  assert (T : Ref.trial 1000 i 2 = true <-> prime i).
  { rewrite prime_iff_no_divisor, trial_spec by lia.
    split; intros H j Hj.
    - intros D. apply (H j Hj). apply Z.mod_divide; [lia | exact D].
    - intros E. apply (H j Hj). apply Z.mod_divide; [lia | exact E]. }
  destruct (prime_dec i) as [P | N].
  - apply T. exact P.
  - destruct (Ref.trial 1000 i 2); [|reflexivity].
    exfalso. apply N. apply T. reflexivity.
Qed.

(** The summation adds up the primes. *)
Lemma sum_from_prime_sum (k : nat) (i acc : Z) :
  2 <= i -> i + Z.of_nat k <= 1000000 ->
  Ref.sum_from 1000 k i acc = acc + prime_sum k i.
Proof.
  revert i acc. induction k as [|k IH]; intros i acc Hi Hk.
  - cbn [Ref.sum_from prime_sum]. lia.
  - rewrite sum_from_S. cbn [prime_sum].
    rewrite IH, trial_prime by lia.
    destruct (prime_dec i); lia.
Qed.

(** Iterations compose. *)
Lemma cpp_main_iter_app (fuel k j : nat) (s : loop_state) :
  Cpp.main_iter fuel (k + j) s =
    match Cpp.main_iter fuel k s with
    | Some s' => Cpp.main_iter fuel j s'
    | None => None
    end.
Proof.
  revert s. induction k as [|k IH]; intros s; [reflexivity|].
  cbn [Nat.add]. rewrite !cpp_main_iter_S.
  destruct (st_i s <? 1000000); [|reflexivity].
  destruct (Cpp.main_step fuel s); [apply IH | reflexivity].
Qed.

End LoopFacts.

Module OutputFacts.

Local Open Scope string_scope.

Lemma sum_value_line (v : string) :
  sum_value ("Sum: " ++ v ++ newline) = v.
Proof.
  unfold sum_value.
  change (String.length ("Sum: " ++ v ++ newline))
    with (5 + String.length (v ++ newline))%nat.
  rewrite append_length.
  change (String.length newline) with 1%nat.
  replace (5 + (String.length v + 1) - 6)%nat with (String.length v) by lia.
  change (substring 5 (String.length v) ("Sum: " ++ v ++ newline))
    with (substring 0 (String.length v) (v ++ newline)).
  apply substring_append.
Qed.

(** The decimal that [string_of_Z] prints reads back as the integer. *)
Lemma read_string_of_Z (z : Z) :
  option_map Z.of_int (NilZero.int_of_string (string_of_Z z)) = Some z.
Proof.
  unfold string_of_Z. rewrite NilZero.isi.
  - cbn [option_map]. rewrite DecimalZ.of_to. reflexivity.
  - destruct z as [|p|p]; cbn [Z.to_int]; try discriminate.
    intros [= E]. apply (Unsigned.to_uint_nonnil p E).
  - destruct z as [|p|p]; cbn [Z.to_int]; try discriminate.
    intros [= E]. apply (Unsigned.to_uint_nonnil p E).
Qed.

(** The sign that [binary_round_aux] is given is the sign of what it
    returns. *)
Lemma binary_round_aux_sign (sx : bool) (m e : Z) (l : location) :
  match binary_round_aux prec emax sx m e l with
  | S754_zero s | S754_infinity s | S754_finite s _ _ => s = sx
  | S754_nan => True
  end.
Proof.
  unfold binary_round_aux.
  destruct (shr_fexp prec emax m e l) as [r1 e1].
  destruct (shr_fexp prec emax _ e1 loc_Exact) as [r2 e2].
  destruct (shr_m r2); [reflexivity | | exact I].
  destruct (e2 <=? emax - prec)%Z; reflexivity.
Qed.

Lemma double_of_Z_sign (z : Z) :
  - 2 ^ 63 <= z <= 2 ^ 63 ->
  sign_string (double_of_Z z) = if (z <? 0)%Z then "-" else "".
Proof.
  intros Hz. pose proof (double_of_Z_bounded z Hz) as Hb.
  unfold double_of_Z, binary_normalize, binary_round in *.
  destruct z as [|p|p]; [reflexivity | |].
  - destruct (shl_align _ _ _) as [mz ez].
    pose proof (binary_round_aux_sign false (Zpos mz) ez loc_Exact) as Hs.
    destruct (binary_round_aux _ _ _ _ _ _); try contradiction;
      subst; reflexivity.
  - destruct (shl_align _ _ _) as [mz ez].
    pose proof (binary_round_aux_sign true (Zpos mz) ez loc_Exact) as Hs.
    destruct (binary_round_aux _ _ _ _ _ _); try contradiction;
      subst; reflexivity.
Qed.

(** Dividing by a positive finite double keeps the sign. *)
Lemma double_div_sign (x : double) (my : positive) (ey : Z) :
  bounded_double 12 x -> (-33 <= ey)%Z ->
  sign_string (double_div x (S754_finite false my ey)) = sign_string x.
Proof.
  intros Hx Hey.
  pose proof (double_div_bounded x false my ey Hx Hey) as Hb.
  destruct x as [sx|sx| |sx mx ex]; try contradiction.
  - destruct sx; reflexivity.
  - unfold double_div, SFdiv in *.
    destruct (SFdiv_core_binary _ _ _ _ _ _) as [[mz ez] lz].
    pose proof (binary_round_aux_sign (xorb sx false) mz ez lz) as Hs.
    rewrite xorb_false_r in *.
    destruct (binary_round_aux _ _ _ _ _ _); try contradiction;
      subst; reflexivity.
Qed.

Lemma c_elapsed_sign (t0 t1 : Z) :
  sign_string (C.elapsed t0 t1) =
    if (wrap_llong (t1 - t0) <? 0)%Z then "-" else "".
Proof.
  unfold C.elapsed.
  change (double_of_Z CLOCKS_PER_SEC)
    with (S754_finite false 8589934592000000 (-33)).
  pose proof (wrap_llong_range (t1 - t0)) as Hr.
  rewrite double_div_sign by (try apply double_of_Z_bounded; lia).
  apply double_of_Z_sign. lia.
Qed.

(** [%.2f] starts with a minus sign exactly on a negative double. *)
Lemma format_f_minus (x : double) (B : Z) :
  bounded_double B x ->
  starts_with_minus (format_f 2 x) = starts_with_minus (sign_string x).
Proof.
  intros Hx.
  assert (H : forall (sign : string) (q : Z) (rest : string),
             (0 <= q)%Z -> sign = "" \/ sign = "-" ->
             starts_with_minus (sign ++ string_of_Z q ++ rest) = starts_with_minus sign).
  { intros sign q rest Hq [-> | ->]; [|reflexivity].
    unfold string_of_Z. destruct q as [|p|p]; [reflexivity | | lia].
    cbn [Z.to_int NilZero.string_of_int NilZero.string_of_uint].
    pose proof (Unsigned.to_uint_nonnil p) as Hn.
    destruct (Pos.to_uint p) as [|d|d|d|d|d|d|d|d|d|d];
      [contradiction | reflexivity ..]. }
  assert (Hs : forall s : bool,
             (if s then "-" else "") = "" \/ (if s then "-" else "") = "-")
    by (intros []; auto).
  unfold format_f.
  destruct x as [s|s| |s m e]; try contradiction.
  - apply H; [|destruct s; auto].
    apply Z.div_pos; [|reflexivity].
    apply (round_half_even_nonneg 0 1); lia.
  - apply H; [|destruct s; auto].
    apply Z.div_pos; [|reflexivity].
    pose proof (magnitude_fraction (S754_finite s m e)) as [Hn Hd].
    destruct (magnitude (S754_finite s m e)) as [num den].
    cbn [fst snd] in Hn, Hd. unfold scale.
    change (0 <=? Z.of_nat 2)%Z with true. cbv iota.
    apply round_half_even_nonneg; lia.
Qed.

End OutputFacts.

Import LoopFacts OutputFacts.

(** X1: on positive [int]s the loop test of [is_prime], [i <= sqrt(n)]
    evaluated in double precision, is true exactly when [i * i <= n], that
    is when [i] is at most the integer square root of [n]: rounding never
    lets a candidate above the square root through nor stops the loop
    below it. *)
Theorem loop_test_is_integer_test (n i : Z) :
  0 < n <= INT_MAX -> 0 < i <= INT_MAX ->
  double_le (double_of_Z i) (sqrt (double_of_Z n)) = (i * i <=? n) /\
  (i * i <=? n) = (i <=? Z.sqrt n).
Proof.
  intros Hn Hi. split; [apply sqrt_guard; assumption|].
  destruct (Z.leb_spec (i * i) n) as [L | G]; symmetry.
  - apply Z.leb_le. apply Z.sqrt_le_square; lia.
  - apply Z.leb_gt. apply Z.sqrt_lt_square; lia.
Qed.

Lemma loop_test_is_integer_test_witness :
  double_le (double_of_Z 46341) (sqrt (double_of_Z 2147483647)) =
    (46341 * 46341 <=? 2147483647) /\
  (46341 * 46341 <=? 2147483647) = (46341 <=? Z.sqrt 2147483647).
Proof.
  apply (loop_test_is_integer_test 2147483647 46341); unfold INT_MAX; lia.
Defined.

(** X2: the double-precision square root of a perfect square [k * k]
    that is an [int] is exactly [k]: the loop test lets the candidate [k]
    through and stops the candidate [k + 1]. *)
Theorem sqrt_of_square_is_exact (k : Z) :
  0 < k -> k * k <= INT_MAX ->
  sqrt (double_of_Z (k * k)) = double_of_Z k /\
  double_le (double_of_Z k) (sqrt (double_of_Z (k * k))) = true /\
  double_le (double_of_Z (k + 1)) (sqrt (double_of_Z (k * k))) = false.
Proof.
  unfold INT_MAX. intros Hk Hkk.
  split; [apply sqrt_square; lia|].
  assert (k < 46341) by nia.
  rewrite !sqrt_guard by (unfold INT_MAX; nia).
  split; [apply Z.leb_le; lia | apply Z.leb_gt; nia].
Qed.

Lemma sqrt_of_square_is_exact_witness :
  sqrt (double_of_Z (46340 * 46340)) = double_of_Z 46340.
Proof.
  apply (sqrt_of_square_is_exact 46340); unfold INT_MAX; lia.
Defined.

(** X3: on a composite [int] [n] whose least divisor from 2 on is [d],
    [is_prime] returns false at the candidate [d], after exactly [d - 1]
    evaluations of the loop test: with less fuel than that the loop has
    not returned, with that much or more it returns false (0 in C). *)
Theorem is_prime_stops_at_least_divisor (fuel : nat) (n d : Z) :
  1 < n <= INT_MAX -> 2 <= d -> d * d <= n -> (d | n) ->
  (forall j, 2 <= j < d -> ~ (j | n)) ->
  (Z.of_nat fuel < d - 1 ->
   Cpp.is_prime fuel n = None /\ C.is_prime fuel n = None) /\
  (d - 1 <= Z.of_nat fuel ->
   Cpp.is_prime fuel n = Some false /\ C.is_prime fuel n = Some 0).
Proof.
  intros Hn Hd Hdd Hdiv Hleast.
  assert (Hpass : forall j, 2 <= j < d -> j * j <= n /\ n mod j <> 0).
  { intros j Hj. split; [nia|].
    intros E. apply (Hleast j Hj). apply Z.mod_divide; [lia | exact E]. }
  rewrite !c_is_prime_cpp. unfold Cpp.is_prime.
  destruct (Z.leb_spec n 1); [lia|].
  split; intros Hf.
  - rewrite cpp_loop_out_of_fuel; [auto | assumption | lia |].
    intros j Hj. apply Hpass. lia.
  - replace fuel with (Z.to_nat (d - 2) + S (fuel - Z.to_nat (d - 1)))%nat
      by lia.
    rewrite cpp_loop_skip; [| assumption | lia |].
    + rewrite Z2Nat.id by lia. replace (2 + (d - 2)) with d by lia.
      rewrite cpp_loop_stop by (assumption || nia).
      rewrite (proj2 (Z.leb_le _ _) Hdd).
      rewrite (proj2 (Z.eqb_eq _ _)); [auto|].
      apply Z.mod_divide; [lia | exact Hdiv].
    + intros j Hj. apply Hpass. lia.
Qed.

Lemma is_prime_stops_at_least_divisor_witness :
  (Z.of_nat 6 < 7 - 1 ->
   Cpp.is_prime 6 91 = None /\ C.is_prime 6 91 = None) /\
  (7 - 1 <= Z.of_nat 6 ->
   Cpp.is_prime 6 91 = Some false /\ C.is_prime 6 91 = Some 0).
Proof.
  apply (is_prime_stops_at_least_divisor 6 91 7).
  - unfold INT_MAX. lia.
  - lia.
  - lia.
  - exists 13. reflexivity.
  - intros j Hj [q Hq].
    assert (C : j = 2 \/ j = 3 \/ j = 4 \/ j = 5 \/ j = 6) by lia.
    destruct C as [-> | [-> | [-> | [-> | ->]]]]; lia.
Defined.

(** X4: on a prime [int] [n], [is_prime] returns true (1 in C) after
    exactly [floor(sqrt(n))] evaluations of the loop test: with less fuel
    the loop has not returned. *)
Theorem is_prime_on_a_prime (fuel : nat) (n : Z) :
  1 < n <= INT_MAX -> prime n ->
  (Z.of_nat fuel < Z.sqrt n ->
   Cpp.is_prime fuel n = None /\ C.is_prime fuel n = None) /\
  (Z.sqrt n <= Z.of_nat fuel ->
   Cpp.is_prime fuel n = Some true /\ C.is_prime fuel n = Some 1).
Proof.
  intros Hn P.
  pose proof (proj1 (prime_iff_no_divisor n ltac:(lia)) P) as Hno.
  rewrite !c_is_prime_cpp.
  split; intros Hf.
  - unfold Cpp.is_prime. destruct (Z.leb_spec n 1); [lia|].
    rewrite cpp_loop_out_of_fuel; [auto | assumption | lia |].
    intros j Hj.
    assert (Hj' : 2 <= j <= Z.sqrt n) by lia.
    split; [apply Z.sqrt_le_square; lia|].
    intros E. apply (Hno j Hj'). apply Z.mod_divide; [lia | exact E].
  - rewrite cpp_is_prime_trial by assumption.
    assert (T : Ref.trial fuel n 2 = true).
    { apply trial_spec; try lia. intros j Hj E.
      apply (Hno j Hj). apply Z.mod_divide; [lia | exact E]. }
    rewrite T. auto.
Qed.

Lemma is_prime_on_a_prime_witness :
  (Z.of_nat 2 < Z.sqrt 7 ->
   Cpp.is_prime 2 7 = None /\ C.is_prime 2 7 = None) /\
  (Z.sqrt 7 <= Z.of_nat 2 ->
   Cpp.is_prime 2 7 = Some true /\ C.is_prime 2 7 = Some 1).
Proof.
  apply (is_prime_on_a_prime 2 7); [unfold INT_MAX; lia|].
  apply (proj2 (prime_iff_no_divisor 7 ltac:(lia))).
  change (Z.sqrt 7) with 2. intros i Hi [q Hq].
  assert (i = 2) by lia. subst i. lia.
Defined.

(** X5: [is_prime] decides primality on the whole range of [int]: with
    fuel for 46340 evaluations of the loop test it returns on every [int],
    negative ones, 0 and 1 included, and it returns true (1 in C) exactly
    on the primes. *)
Theorem is_prime_decides_primality (fuel : nat) (n : Z) :
  is_int n -> 46340 <= Z.of_nat fuel ->
  exists b : bool,
    Cpp.is_prime fuel n = Some b /\
    C.is_prime fuel n = Some (Z.b2z b) /\
    (b = true <-> prime n).
Proof.
  unfold is_int, INT_MIN, INT_MAX. intros Hn Hf.
  rewrite c_is_prime_cpp.
  destruct (Z_le_gt_dec n 1) as [L | G].
  - exists false. unfold Cpp.is_prime. destruct (Z.leb_spec n 1); [|lia].
    split; [reflexivity|]. split; [reflexivity|].
    split; [discriminate|]. intros [P _]. lia.
  - assert (Hs : Z.sqrt n < 46341) by (apply Z.sqrt_lt_square; lia).
    exists (Ref.trial fuel n 2).
    rewrite cpp_is_prime_trial by (unfold INT_MAX; lia).
    split; [reflexivity|]. split; [reflexivity|].
    rewrite prime_iff_no_divisor, trial_spec by lia.
    split; intros H i Hi.
    + intros D. apply (H i Hi). apply Z.mod_divide; [lia | exact D].
    + intros E. apply (H i Hi). apply Z.mod_divide; [lia | exact E].
Qed.

Lemma is_prime_decides_primality_witness :
  exists b : bool,
    Cpp.is_prime (Z.to_nat 46340) (-5) = Some b /\
    C.is_prime (Z.to_nat 46340) (-5) = Some (Z.b2z b) /\
    (b = true <-> prime (-5)).
Proof.
  apply (is_prime_decides_primality (Z.to_nat 46340) (-5)).
  - unfold is_int, INT_MIN, INT_MAX. lia.
  - lia.
Defined.

(** X6: the invariant of the summation loop: after [k] iterations, for
    every [k] up to 999998, the candidate is [2 + k] and the accumulator
    is the sum of the primes [p] with [2 <= p < 2 + k], in both
    programs. *)
Theorem sum_is_sum_of_primes_so_far (fuel k : nat) :
  (1000 <= fuel)%nat -> Z.of_nat k <= 999998 ->
  C.main_iter fuel k loop_init =
    Some {| st_i := 2 + Z.of_nat k; st_sum := prime_sum k 2 |} /\
  Cpp.main_iter fuel k loop_init =
    Some {| st_i := 2 + Z.of_nat k; st_sum := prime_sum k 2 |}.
Proof.
  intros Hf Hk.
  destruct (main_iter_init fuel k Hf) as (Hc & Hcpp & _);
    [unfold candidates; lia|].
  rewrite sum_from_prime_sum in Hc, Hcpp by lia.
  rewrite Z.add_0_l in Hc, Hcpp. split; assumption.
Qed.

Lemma sum_is_sum_of_primes_so_far_witness :
  C.main_iter 1000 10 loop_init =
    Some {| st_i := 2 + Z.of_nat 10; st_sum := prime_sum 10 2 |} /\
  Cpp.main_iter 1000 10 loop_init =
    Some {| st_i := 2 + Z.of_nat 10; st_sum := prime_sum 10 2 |}.
Proof.
  apply (sum_is_sum_of_primes_so_far 1000 10); lia.
Defined.

(** X7: the summation loop of both programs ends with [i = 1000000] and
    with the sum of all primes below one million in [sum], which is
    37550402023; it runs 999998 iterations and no more. *)
Theorem main_sums_the_primes_below_million (fuel : nat) :
  1000999 <= Z.of_nat fuel ->
  C.main_loop fuel loop_init =
    Some {| st_i := 1000000; st_sum := prime_sum candidates 2 |} /\
  Cpp.main_loop fuel loop_init =
    Some {| st_i := 1000000; st_sum := prime_sum candidates 2 |} /\
  C.main_iter fuel (S candidates) loop_init = None /\
  Cpp.main_iter fuel (S candidates) loop_init = None /\
  prime_sum candidates 2 = 37550402023.
Proof.
  intros Hf.
  assert (Hk : st_i loop_init + Z.of_nat candidates = 1000000)
    by (unfold candidates; cbn [loop_init st_i]; rewrite Z2Nat.id; lia).
  assert (E : Ref.sum_from 1000 candidates 2 0 = prime_sum candidates 2).
  { rewrite sum_from_prime_sum; [lia | lia |].
    unfold candidates. rewrite Z2Nat.id; lia. }
  rewrite c_main_loop_cpp.
  rewrite (cpp_main_loop fuel candidates loop_init loop_inv_init Hk)
    by (unfold candidates; lia).
  cbn [loop_init st_i st_sum]. rewrite E.
  split; [reflexivity|]. split; [reflexivity|].
  assert (N : Cpp.main_iter fuel (S candidates) loop_init = None).
  { replace (S candidates) with (candidates + 1)%nat by lia.
    rewrite cpp_main_iter_app.
    destruct (cpp_main_iter fuel candidates loop_init loop_inv_init)
      as [-> _]; [lia | lia |].
    rewrite Hk. reflexivity. }
  rewrite c_main_iter_cpp. split; [exact N|]. split; [exact N|].
  rewrite <- E. apply ref_total.
Qed.

Lemma main_sums_the_primes_below_million_witness :
  C.main_loop (Z.to_nat 1000999) loop_init =
    Some {| st_i := 1000000; st_sum := prime_sum candidates 2 |}.
Proof.
  destruct (main_sums_the_primes_below_million (Z.to_nat 1000999))
    as (H & _).
  - rewrite Z2Nat.id; lia.
  - exact H.
Defined.

(** X8: the first output line carries the sum without loss: read back
    as a decimal, what either program prints between [Sum: ] and the end
    of the line is the sum, whatever its sign and size. *)
Theorem sum_line_reads_back (sum : Z) :
  read_sum (C.sum_line sum) = Some sum /\
  read_sum (Cpp.sum_line sum) = Some sum.
Proof.
  unfold read_sum, C.sum_line, Cpp.sum_line.
  rewrite sum_value_line, read_string_of_Z. auto.
Qed.

(** X9: the C program does not guard against a clock that goes back: the
    elapsed time it prints starts with a minus sign exactly when the
    difference of the two readings, wrapped to 64 bits, is negative, that
    is when the second reading is below the first as long as the
    difference fits a [long long]. *)
Theorem c_time_is_negative_iff_clock_went_back (t0 t1 : Z) :
  starts_with_minus (time_value (C.time_line t0 t1)) = (wrap_llong (t1 - t0) <? 0) /\
  (LLONG_MIN <= t1 - t0 <= LLONG_MAX ->
   starts_with_minus (time_value (C.time_line t0 t1)) = (t1 <? t0)).
Proof.
  assert (E : starts_with_minus (time_value (C.time_line t0 t1)) =
              (wrap_llong (t1 - t0) <? 0)).
  { unfold C.time_line. rewrite time_value_line.
    rewrite (format_f_minus _ 46) by apply c_elapsed_bounded.
    rewrite c_elapsed_sign.
    destruct (wrap_llong (t1 - t0) <? 0); reflexivity. }
  split; [exact E|].
  intros Hr. rewrite E, wrap_llong_small by exact Hr.
  destruct (Z.ltb_spec (t1 - t0) 0), (Z.ltb_spec t1 t0); (reflexivity || lia).
Qed.
